(** * The authentication middleware of the oCIS proxy

    A shallow embedding of the authentication middleware of the proxy
    service (package [middleware]): the higher order [Authentication]
    middleware, its path exemptions, the chain of [Authenticator]s and the
    [Www-Authenticate] negotiation with the user-agent lock-in.

    Conventions of the embedding:
    - Go strings are [string] (bytes); the helpers of Go's [strings],
      [unicode/utf8] and [regexp] packages that the middleware relies on
      are written out; [strings.Title] for ASCII text only;
    - [http.Header] and [map[string]string] are [gmap]s; a [range] over a
      Go map visits the entries in an unspecified order, which is supplied
      to the handler from outside as a [MapOrder];
    - the [http.ResponseWriter], the package-level variable
      [SupportedAuthStrategies] and the calls made to collaborators are
      threaded through a small state monad. *)

From Stdlib Require Import String Ascii List Bool Arith NArith Lia.
From stdpp Require Import base option list gmap strings fin_maps.

Open Scope string_scope.
Open Scope list_scope.

(** ** Go's [strings] package *)

(** [strings.HasPrefix(s, prefix)]. *)
Fixpoint HasPrefix (s prefix : string) {struct prefix} : bool :=
  match prefix with
  | EmptyString => true
  | String c prefix' =>
      match s with
      | EmptyString => false
      | String d s' => Ascii.eqb d c && HasPrefix s' prefix'
      end
  end.

(** [strings.Contains(s, substr)]: [substr] occurs within [s]. *)
Fixpoint Contains (s substr : string) : bool :=
  HasPrefix s substr ||
  match s with
  | EmptyString => false
  | String _ s' => Contains s' substr
  end.

Definition isDigit (c : ascii) : bool :=
  ((48 <=? nat_of_ascii c) && (nat_of_ascii c <=? 57))%nat.
Definition isLower (c : ascii) : bool :=
  ((97 <=? nat_of_ascii c) && (nat_of_ascii c <=? 122))%nat.
Definition isUpper (c : ascii) : bool :=
  ((65 <=? nat_of_ascii c) && (nat_of_ascii c <=? 90))%nat.

(** [strings.isSeparator] on ASCII: letters, digits and the underscore do
    not separate words, every other ASCII character does.  Bytes above 127
    are never taken for separators here. *)
Definition isSeparator (c : ascii) : bool :=
  if (nat_of_ascii c <=? 127)%nat
  then negb (isDigit c || isLower c || isUpper c || (nat_of_ascii c =? 95)%nat)
  else false.

(** [unicode.ToTitle] on ASCII. *)
Definition toTitle (c : ascii) : ascii :=
  if isLower c then ascii_of_nat (nat_of_ascii c - 32) else c.

Fixpoint titleFrom (prev : ascii) (s : string) : string :=
  match s with
  | EmptyString => EmptyString
  | String c s' =>
      String (if isSeparator prev then toTitle c else c) (titleFrom c s')
  end.

(** [strings.Title(s)]: the letters that begin words are mapped to title
    case; the scan starts as if a space preceded the string. *)
Definition Title (s : string) : string := titleFrom " "%char s.

(** ** Go's [unicode/utf8] package *)

Definition RuneError : N := 65533.
Definition RuneSelf : N := 128.

(** The tables [first] and [acceptRanges]: for a leading byte, the size of
    the sequence and the range its second byte must lie in; [None] for a
    byte that leads no sequence. *)
Definition leadByte (b : N) : option (nat * N * N) :=
  (if b <? 194 then None
   else if b <=? 223 then Some (2%nat, 128, 191)
   else if b =? 224 then Some (3%nat, 160, 191)
   else if b <=? 236 then Some (3%nat, 128, 191)
   else if b =? 237 then Some (3%nat, 128, 159)
   else if b <=? 239 then Some (3%nat, 128, 191)
   else if b =? 240 then Some (4%nat, 144, 191)
   else if b <=? 243 then Some (4%nat, 128, 191)
   else if b =? 244 then Some (4%nat, 128, 143)
   else None)%N.

(** A continuation byte. *)
Definition isCont (b : N) : bool := ((128 <=? b) && (b <=? 191))%N.

(** [utf8.DecodeRuneInString(s)]: the first rune of [s] and its width in
    bytes; [(RuneError, 0)] for the empty string and [(RuneError, 1)] for
    an encoding that is invalid or cut short. *)
Definition DecodeRuneInString (s : string) : N * nat :=
  match s with
  | EmptyString => (RuneError, 0%nat)
  | String c0 s1 =>
      let b0 := N_of_ascii c0 in
      if (b0 <? RuneSelf)%N then (b0, 1%nat)
      else
        match leadByte b0 with
        | None => (RuneError, 1%nat)
        | Some (sz, lo, hi) =>
            match s1 with
            | EmptyString => (RuneError, 1%nat)
            | String c1 s2 =>
                let b1 := N_of_ascii c1 in
                if ((b1 <? lo) || (hi <? b1))%N then (RuneError, 1%nat)
                else if (sz <=? 2)%nat then
                  (N.lor (N.shiftl (N.land b0 31) 6) (N.land b1 63), 2%nat)
                else
                  match s2 with
                  | EmptyString => (RuneError, 1%nat)
                  | String c2 s3 =>
                      let b2 := N_of_ascii c2 in
                      if negb (isCont b2) then (RuneError, 1%nat)
                      else if (sz <=? 3)%nat then
                        (N.lor (N.shiftl (N.land b0 15) 12)
                           (N.lor (N.shiftl (N.land b1 63) 6) (N.land b2 63)), 3%nat)
                      else
                        match s3 with
                        | EmptyString => (RuneError, 1%nat)
                        | String c3 _ =>
                            let b3 := N_of_ascii c3 in
                            if negb (isCont b3) then (RuneError, 1%nat)
                            else
                              (N.lor (N.shiftl (N.land b0 7) 18)
                                 (N.lor (N.shiftl (N.land b1 63) 12)
                                    (N.lor (N.shiftl (N.land b2 63) 6)
                                       (N.land b3 63))), 4%nat)
                        end
                  end
            end
        end
  end.

(** ** Go's [regexp] package, for patterns that are sequences of
    single-rune matchers (literals, [.] and bracket classes), which is
    all that [ProxyWwwAuthenticate] holds.  The input is read rune by
    rune; a literal [c] stands for the rune with the code point of [c]. *)

Inductive CharMatcher :=
| Lit (c : ascii)
| AnyCharNotNL
| OneOf (cs : list ascii).

Definition Regexp := list CharMatcher.

Definition matchRune (m : CharMatcher) (r : N) : bool :=
  match m with
  | Lit d => (r =? N_of_ascii d)%N
  | AnyCharNotNL => negb (r =? 10)%N
  | OneOf cs => existsb (fun d => (r =? N_of_ascii d)%N) cs
  end.

Fixpoint dropBytes (n : nat) (s : string) : string :=
  match n, s with
  | S n', String _ s' => dropBytes n' s'
  | _, _ => s
  end.

(** The pattern matches at the beginning of [s]. *)
Fixpoint matchHere (re : Regexp) (s : string) {struct re} : bool :=
  match re with
  | [] => true
  | m :: re' =>
      match s with
      | EmptyString => false
      | String _ _ =>
          let (r, width) := DecodeRuneInString s in
          matchRune m r && matchHere re' (dropBytes width s)
      end
  end.

(** The search for a match: it is tried at an offset, then the offset
    advances by the width of the rune there; [skip] counts the bytes left
    of a rune that is being stepped over. *)
Fixpoint matchFrom (re : Regexp) (s : string) (skip : nat) {struct s} : bool :=
  match skip with
  | S skip' =>
      match s with
      | EmptyString => false
      | String _ s' => matchFrom re s' skip'
      end
  | O =>
      matchHere re s ||
      match s with
      | EmptyString => false
      | String _ s' => matchFrom re s' (snd (DecodeRuneInString s) - 1)
      end
  end.

(** [re.MatchString(s)]: the pattern is not anchored, it may match at any
    offset of [s]. *)
Definition MatchString (re : Regexp) (s : string) : bool := matchFrom re s 0.

Arguments MatchString : simpl never.

(** The literals of a pattern text in ASCII. *)
Fixpoint lits (s : string) : Regexp :=
  match s with
  | EmptyString => []
  | String c s' => Lit c :: lits s'
  end.

(** ** Requests, response writers and handlers of [net/http] *)

Abbreviation Header := (gmap string (list string)).

(** [h.Add(key, value)] appends to the values of [key]. *)
Definition Header_Add (key value : string) (h : Header) : Header :=
  <[key := default [] (h !! key) ++ [value]]> h.

(** [h.Del(key)]. *)
Definition Header_Del (key : string) (h : Header) : Header := delete key h.

(** [h.Values(key)]. *)
Definition Header_Values (key : string) (h : Header) : list string :=
  default [] (h !! key).

(** [h.Get(key)]: the first value of [key], or the empty string. *)
Definition Header_Get (key : string) (h : Header) : string :=
  match h !! key with
  | Some (v :: _) => v
  | _ => EmptyString
  end.

(** The fields of [*http.Request] that the middleware or its collaborators
    read.  [ctx] stands for the request context, where an authenticator
    stores the identity it resolved. *)
Record Request := {
  Method : string;
  URL_Path : string;
  RequestURI : string;
  Host : string;
  ReqHeader : Header;
  ctx : list (string * string)
}.

(** [r.UserAgent()]. *)
Definition UserAgent (r : Request) : string :=
  Header_Get "User-Agent" (ReqHeader r).

(** An [http.ResponseWriter] as the server implements it: [header] is the
    map returned by [w.Header()]; the first [WriteHeader] fixes the status
    and sends the header map as it is then; [body] is what [Write] has
    sent so far. *)
Record ResponseWriter := {
  header : Header;
  wroteHeader : bool;
  status : nat;
  sent : Header;
  body : string
}.

Definition newResponseWriter : ResponseWriter :=
  {| header := ∅; wroteHeader := false; status := 0; sent := ∅; body := EmptyString |}.

Definition StatusOK : nat := 200.
Definition StatusUnauthorized : nat := 401.

(** [http.StatusText(code)], for the codes used here. *)
Definition StatusText (code : nat) : string :=
  if (code =? 200)%nat then "OK"
  else if (code =? 401)%nat then "Unauthorized"
  else EmptyString.

Definition rw_setHeader (f : Header -> Header) (w : ResponseWriter) : ResponseWriter :=
  {| header := f (header w); wroteHeader := wroteHeader w; status := status w;
     sent := sent w; body := body w |}.

(** [w.WriteHeader(code)]; a second call is superfluous and ignored. *)
Definition rw_WriteHeader (code : nat) (w : ResponseWriter) : ResponseWriter :=
  if wroteHeader w then w
  else {| header := header w; wroteHeader := true; status := code;
          sent := header w; body := body w |}.

(** [w.Write(b)]; writes the header with status 200 first when no
    [WriteHeader] preceded. *)
Definition rw_Write (b : string) (w : ResponseWriter) : ResponseWriter :=
  let w' := rw_WriteHeader StatusOK w in
  {| header := header w'; wroteHeader := wroteHeader w'; status := status w';
     sent := sent w'; body := body w' +:+ b |}.

(** What a callee that is handed the [http.ResponseWriter] can do to it. *)
Inductive WriterOp :=
| OpHeaderAdd (key value : string)
| OpHeaderSet (key value : string)
| OpHeaderDel (key : string)
| OpWriteHeader (code : nat)
| OpWrite (b : string).

Definition rw_op (op : WriterOp) (w : ResponseWriter) : ResponseWriter :=
  match op with
  | OpHeaderAdd k v => rw_setHeader (Header_Add k v) w
  | OpHeaderSet k v => rw_setHeader (<[k := [v]]>) w
  | OpHeaderDel k => rw_setHeader (Header_Del k) w
  | OpWriteHeader code => rw_WriteHeader code w
  | OpWrite b => rw_Write b w
  end.

Definition rw_ops (ops : list WriterOp) (w : ResponseWriter) : ResponseWriter :=
  fold_left (fun w op => rw_op op w) ops w.

(** [http.Handler]: [ServeHTTP(w, r)] as its effect on the writer. *)
Definition Handler := Request -> ResponseWriter -> ResponseWriter.

(** ** The [webdav] package of the proxy *)

Module webdav.

(** Modelled from the spec: the package [services/proxy/pkg/webdav] is
    missing from the sources; this is its fault code for "permission
    denied", the only code the middleware names. *)
Variant code := SabredavPermissionDenied.

(** [webdav.Exception], as the middleware builds it. *)
Record Exception := { Code : code; Message : string }.

(** The three functions of the package that the middleware calls.
    [Marshal] returns the bytes and the error ([None] for [nil]);
    [HandleWebdavError(w, b, err)] is given by the operations it performs
    on [w].  The middleware is verified for every implementation. *)
Class Package := {
  IsWebdavRequest : Request -> bool;
  Marshal : Exception -> string * option string;
  HandleWebdavError : string -> option string -> list WriterOp
}.

Definition codeName (c : code) : string :=
  match c with SabredavPermissionDenied => "permission-denied" end.

(** Modelled from the spec: the WebDAV-specific verbs and the header that
    marks a WebDAV client are not named there; the verbs of RFC 4918 and
    its [Depth] header stand for them. *)
Definition specIsWebdavRequest (r : Request) : bool :=
  existsb (String.eqb (Method r))
    ["PROPFIND"; "PROPPATCH"; "MKCOL"; "COPY"; "MOVE"; "LOCK"; "UNLOCK"]
  || bool_decide (is_Some (ReqHeader r !! "Depth")).

(** Modelled from the spec: the fault carries the fields [code] and
    [message]; the XML element names are a stand-in for the schema. *)
Definition faultXML (code message : string) : string :=
  "<error><code>" +:+ code +:+ "</code><message>" +:+ message +:+ "</message></error>".

(** Modelled from the spec: marshalling an exception gives the fault with
    its code and its message, and does not fail. *)
Definition specMarshal (e : Exception) : string * option string :=
  (faultXML (codeName (Code e)) (Message e), None).

(** Modelled from the spec: the fault is written with its content type;
    when serialisation failed the generic status text is written
    instead. *)
Definition specHandleWebdavError (b : string) (err : option string) : list WriterOp :=
  match err with
  | None => [OpHeaderSet "Content-Type" "application/xml"; OpWrite b]
  | Some _ => [OpWrite (StatusText StatusUnauthorized)]
  end.

Definition fromSpec : Package :=
  {| IsWebdavRequest := specIsWebdavRequest;
     Marshal := specMarshal;
     HandleWebdavError := specHandleWebdavError |}.

End webdav.

(** ** The middleware package *)

(** The fields of [Options] that the authentication middleware reads. *)
Record Options := {
  OIDCIss : string;
  EnableBasicAuth : bool;
  CredentialsByUserAgent : gmap string string
}.

(** [Authenticator] is the common interface implemented by all request
    authenticators: it may augment the request and return the augmented
    request. *)
Record Authenticator := { Authenticate : Request -> Request * bool }.

(** The package-level variables that are assigned to. *)
Record Globals := { SupportedAuthStrategies : list string }.

(** Before any code of the package ran, the slice is [nil]. *)
Definition initGlobals : Globals := {| SupportedAuthStrategies := [] |}.

(** The pattern [/ocs/v[12].php/cloud/]. *)
Definition ocsCloud : Regexp :=
  lits "/ocs/v" ++ [OneOf ["1"%char; "2"%char]; AnyCharNotNL] ++ lits "php/cloud/".

(** [ProxyWwwAuthenticate] is a list of endpoints that do not rely on reva
    underlying authentication, such as ocs. *)
Definition ProxyWwwAuthenticate : list Regexp := [ocsCloud].

Definition _publicPaths : list string :=
  [ "/dav/public-files/";
    "/remote.php/dav/public-files/";
    "/remote.php/ocs/apps/files_sharing/api/v1/tokeninfo/unprotected";
    "/ocs/v1.php/cloud/capabilities";
    "/data" ].

Definition WwwAuthenticate : string := "Www-Authenticate".

(** A call to a collaborator: the [i]-th authenticator of the chain, or
    the next handler with the request it is given. *)
Inductive Call :=
| CallAuthenticate (i : nat) (r : Request)
| CallServeHTTP (req : Request).

(** The state a request is handled in. [ranges] counts the loops over a Go
    map begun so far. *)
Record World := {
  globals : Globals;
  w : ResponseWriter;
  calls : list Call;
  ranges : nat
}.

(** The order in which the [n]-th [range] over a map visits its entries. *)
Definition MapOrder := nat -> list (string * string).

(** Every [range] visits each entry of the map once. *)
Definition validOrder (order : MapOrder) (m : gmap string string) : Prop :=
  forall n, order n ≡ₚ map_to_list m.

(** *** A state monad for the handler *)

Definition M (A : Type) : Type := World -> A * World.

Definition ret {A} (a : A) : M A := fun st => (a, st).

Definition bind {A B} (c : M A) (k : A -> M B) : M B :=
  fun st => let (a, st') := c st in k a st'.

Declare Scope go_scope.
Delimit Scope go_scope with go.
Notation "x <- c ;; k" := (bind c (fun x => k))
  (at level 100, c at next level, right associativity) : go_scope.
Notation "c ;; k" := (bind c (fun _ => k))
  (at level 100, right associativity) : go_scope.
Open Scope go_scope.

Definition exec {A} (c : M A) (st : World) : World := snd (c st).

Definition getSupportedAuthStrategies : M (list string) :=
  fun st => (SupportedAuthStrategies (globals st), st).

Definition onWriter (f : ResponseWriter -> ResponseWriter) : M unit :=
  fun st => (tt, {| globals := globals st; w := f (w st);
                    calls := calls st; ranges := ranges st |}).

Definition call (c : Call) : M unit :=
  fun st => (tt, {| globals := globals st; w := w st;
                    calls := calls st ++ [c]; ranges := ranges st |}).

(** Begin a [range] over a map: the entries in the order of this loop. *)
Definition rangeMap (order : MapOrder) : M (list (string * string)) :=
  fun st => (order (ranges st),
             {| globals := globals st; w := w st;
                calls := calls st; ranges := S (ranges st) |}).

Fixpoint forEach {A} (l : list A) (f : A -> M unit) : M unit :=
  match l with
  | [] => ret tt
  | x :: l' => f x ;; forEach l' f
  end.

(** [next.ServeHTTP(w, req)]. *)
Definition nextServeHTTP (next : Handler) (req : Request) : M unit :=
  call (CallServeHTTP req) ;; onWriter (next req).

(** *** Path exemptions *)

(** The token auth endpoint uses basic auth for clients. *)
Definition isOIDCTokenAuth (req : Request) : bool :=
  String.eqb (URL_Path req) "/konnect/v1/token".

Definition isPublicPath (p : string) : bool :=
  existsb (HasPrefix p) _publicPaths.

(** The condition under which the handler leaves the request to the IdP. *)
Definition handledByIdP (r : Request) : bool :=
  isOIDCTokenAuth r ||
  String.eqb (URL_Path r) "/" ||
  HasPrefix (URL_Path r) "/.well-known" ||
  String.eqb (URL_Path r) "/login" ||
  HasPrefix (URL_Path r) "/js" ||
  HasPrefix (URL_Path r) "/themes" ||
  HasPrefix (URL_Path r) "/signin" ||
  HasPrefix (URL_Path r) "/konnect" ||
  String.eqb (URL_Path r) "/config.json" ||
  String.eqb (URL_Path r) "/oidc-callback.html" ||
  String.eqb (URL_Path r) "/oidc-callback" ||
  String.eqb (URL_Path r) "/settings.js".

(** *** Supported challenges *)

(** [configureSupportedChallenges] adds known authentication challenges to
    the current session: it appends to the package-level slice. *)
Definition configureSupportedChallenges (options : Options) (g : Globals) : Globals :=
  let g1 :=
    if negb (String.eqb (OIDCIss options) EmptyString)
    then {| SupportedAuthStrategies := SupportedAuthStrategies g ++ ["bearer"] |}
    else g in
  if EnableBasicAuth options
  then {| SupportedAuthStrategies := SupportedAuthStrategies g1 ++ ["basic"] |}
  else g1.

Definition dquote : string := String "034"%char EmptyString.

(** [fmt.Sprintf] of the challenge format with a scheme and a realm. *)
Definition challenge (scheme host : string) : string :=
  Title scheme +:+ " realm=" +:+ dquote +:+ host +:+ dquote +:+
  ", charset=" +:+ dquote +:+ "UTF-8" +:+ dquote.

Definition headerAdd (key value : string) : M unit :=
  onWriter (rw_setHeader (Header_Add key value)).

Definition writeSupportedAuthenticateHeader (r : Request) : M unit :=
  strategies <- getSupportedAuthStrategies ;;
  forEach strategies (fun s => headerAdd WwwAuthenticate (challenge s (Host r))).

Definition removeSuperfluousAuthenticate : M unit :=
  onWriter (rw_setHeader (Header_Del WwwAuthenticate)).

(** *** User-agent lock-in *)

(** [userAgentLocker]; its writer is the one of the state. *)
Record userAgentLocker := {
  l_r : Request;
  locks : gmap string string;
  fallback : string
}.

(** The loop over the entries of [locks], up to its [return]: the scheme
    of the first entry visited whose key passes the test against the
    user agent. *)
Fixpoint firstLock (entries : list (string * string)) (userAgent : string) : option string :=
  match entries with
  | [] => None
  | (k, v) :: entries' =>
      if Contains k userAgent then Some v else firstLock entries' userAgent
  end.

Definition evalRequestURI (order : MapOrder) (l : userAgentLocker) (re : Regexp) : M unit :=
  if negb (MatchString re (RequestURI (l_r l))) then ret tt
  else
    entries <- rangeMap order ;;
    match firstLock entries (UserAgent (l_r l)) with
    | Some v =>
        removeSuperfluousAuthenticate ;;
        headerAdd WwwAuthenticate (challenge v (Host (l_r l)))
    | None =>
        headerAdd WwwAuthenticate (challenge (fallback l) (Host (l_r l)))
    end.

(** [userAgentAuthenticateLockIn] sets Www-Authenticate according to
    configured user agents. *)
Definition userAgentAuthenticateLockIn (order : MapOrder) (r : Request)
    (locks : gmap string string) (fallback : string) : M unit :=
  let u := {| l_r := r; locks := locks; fallback := fallback |} in
  forEach ProxyWwwAuthenticate (fun re => evalRequestURI order u re).

(** *** The authentication chain *)

(** The loop over [auths], up to its [return]: the augmented request of
    the first authenticator that accepts. *)
Fixpoint rangeAuths (auths : list Authenticator) (i : nat) (r : Request) : M (option Request) :=
  match auths with
  | [] => ret None
  | a :: auths' =>
      call (CallAuthenticate i r) ;;
      let (req, ok) := Authenticate a r in
      if ok then ret (Some req) else rangeAuths auths' (S i) r
  end.

Section Middleware.
Context {webdavPkg : webdav.Package}.

(** What the handler does once no authenticator accepted. *)
Definition unauthorized (options : Options) (order : MapOrder) (r : Request) : M unit :=
  (if negb (isPublicPath (URL_Path r)) then
     strategies <- getSupportedAuthStrategies ;;
     forEach strategies (fun s =>
       userAgentAuthenticateLockIn order r (CredentialsByUserAgent options) s)
   else ret tt) ;;
  onWriter (rw_WriteHeader StatusUnauthorized) ;;
  if webdav.IsWebdavRequest r then
    let (b, err) :=
      webdav.Marshal {| webdav.Code := webdav.SabredavPermissionDenied;
                        webdav.Message := "Authentication error" |} in
    onWriter (rw_ops (webdav.HandleWebdavError b err))
  else ret tt.

(** The handler that [Authentication] returns, applied to [next]. *)
Definition ServeHTTP (auths : list Authenticator) (options : Options)
    (next : Handler) (order : MapOrder) (r : Request) : M unit :=
  if handledByIdP r then nextServeHTTP next r
  else
    res <- rangeAuths auths 0 r ;;
    match res with
    | Some req => nextServeHTTP next req
    | None => unauthorized options order r
    end.

(** [Authentication] is a higher order authentication middleware: it
    configures the supported challenges, then returns the middleware. *)
Definition Authentication (auths : list Authenticator) (options : Options)
    (g : Globals) : Globals * (Handler -> MapOrder -> Request -> M unit) :=
  (configureSupportedChallenges options g,
   fun next order r => ServeHTTP auths options next order r).

(** One request served by the middleware on the writer [rw], with the
    package variables as [g]. *)
Definition serve (mw : Handler -> MapOrder -> Request -> M unit) (next : Handler)
    (order : MapOrder) (g : Globals) (rw : ResponseWriter) (r : Request) : World :=
  exec (mw next order r) {| globals := g; w := rw; calls := []; ranges := 0 |}.

(** The gateway at work: the middleware is set up from the initial
    package state, then serves the requests one after the other, each on
    a writer of its own.  The result is the package state at the end. *)
Fixpoint serveAll (mw : Handler -> MapOrder -> Request -> M unit) (next : Handler)
    (g : Globals) (reqs : list (MapOrder * ResponseWriter * Request)) : Globals :=
  match reqs with
  | [] => g
  | (order, rw, r) :: reqs' =>
      serveAll mw next (globals (serve mw next order g rw r)) reqs'
  end.

End Middleware.

(** ** Vocabulary of the statements *)

(** Every authenticator of the chain returns [ok = false] on [r]. *)
Definition declineAll (auths : list Authenticator) (r : Request) : Prop :=
  Forall (fun a => snd (Authenticate a r) = false) auths.

(** The request URI is within the scope of the lock-in. *)
Definition lockScope (uri : string) : bool :=
  existsb (fun re => MatchString re uri) ProxyWwwAuthenticate.

(** Some entry of the lock mapping passes the handler's test against the
    user agent. *)
Definition lockApplies (locks : gmap string string) (userAgent : string) : Prop :=
  exists k v, locks !! k = Some v /\ Contains k userAgent = true.

(** A lock rule matches the user agent as the specification has it: some
    key of the mapping occurs within the user agent. *)
Definition lockMatches (locks : gmap string string) (userAgent : string) : Prop :=
  exists k v, locks !! k = Some v /\ Contains userAgent k = true.

(** The handler's test and the one of the specification give the same
    answer for every key of the mapping. *)
Definition testsAgree (locks : gmap string string) (userAgent : string) : Prop :=
  forall k, is_Some (locks !! k) -> Contains k userAgent = Contains userAgent k.

(** All entries that pass the test name the same scheme. *)
Definition locksAgree (locks : gmap string string) (userAgent : string) : Prop :=
  forall k1 v1 k2 v2,
    locks !! k1 = Some v1 -> locks !! k2 = Some v2 ->
    Contains k1 userAgent = true -> Contains k2 userAgent = true -> v1 = v2.

(** The [Www-Authenticate] values of the response as sent. *)
Definition challenges (st : World) : list string :=
  Header_Values WwwAuthenticate (sent (w st)).

(** The schemes that [configureSupportedChallenges] derives from the
    options. *)
Definition configuredSchemes (options : Options) : list string :=
  (if negb (String.eqb (OIDCIss options) EmptyString) then ["bearer"] else []) ++
  (if EnableBasicAuth options then ["basic"] else []).

(** The state left by a handler that made the calls [cs] and turned the
    writer into [rw]. *)
Definition outcome (g : Globals) (rw : ResponseWriter) (cs : list Call) (n : nat) : World :=
  {| globals := g; w := rw; calls := cs; ranges := n |}.

(** The calls to the first [n] authenticators of the chain, in order. *)
Definition authCalls (i n : nat) (r : Request) : list Call :=
  map (fun j => CallAuthenticate j r) (seq i n).

(** *** The negotiation as a function on the header map *)

(** One call of [evalRequestURI] on a URI within scope. *)
Definition lockStep (entries : list (string * string)) (ua host s : string)
    (h : Header) : Header :=
  match firstLock entries ua with
  | Some v => Header_Add WwwAuthenticate (challenge v host) (Header_Del WwwAuthenticate h)
  | None => Header_Add WwwAuthenticate (challenge s host) h
  end.

(** The loop over the supported strategies on a URI within scope; [n] is
    the number of loops over the lock mapping begun before. *)
Fixpoint lockLoop (order : MapOrder) (ua host : string) (strategies : list string)
    (n : nat) (h : Header) : Header :=
  match strategies with
  | [] => h
  | s :: strategies' =>
      lockLoop order ua host strategies' (S n) (lockStep (order n) ua host s h)
  end.

(** The header map once the handler has staged its challenges. *)
Definition negotiated (order : MapOrder) (r : Request) (strategies : list string)
    (n : nat) (h : Header) : Header :=
  if isPublicPath (URL_Path r) then h
  else if lockScope (RequestURI r)
       then lockLoop order (UserAgent r) (Host r) strategies n h
       else h.

(** The number of loops over the lock mapping that the handler begins. *)
Definition negotiatedRanges (r : Request) (strategies : list string) : nat :=
  if isPublicPath (URL_Path r) then 0
  else if lockScope (RequestURI r) then length strategies else 0.

(** What the handler has the [webdav] package do to the writer. *)
Definition faultOps {webdavPkg : webdav.Package} (r : Request) : list WriterOp :=
  if webdav.IsWebdavRequest r then
    let (b, err) :=
      webdav.Marshal {| webdav.Code := webdav.SabredavPermissionDenied;
                        webdav.Message := "Authentication error" |} in
    webdav.HandleWebdavError b err
  else [].

(** *** The older composition *)

Section Old.
(** [newOIDCAuth(options)] returns the OIDC middleware configured from the
    options; [OIDCAuth] is declared elsewhere in the package and is taken
    as given here. *)
Context (newOIDCAuth : Options -> Handler -> Handler).

(** [AuthenticationOld] is a higher order authentication middleware: it
    configures the supported challenges as well, then serves through the
    OIDC middleware under each of its two conditions in turn. *)
Definition AuthenticationOld (options : Options) (g : Globals)
    : Globals * (Handler -> Handler) :=
  let g' := configureSupportedChallenges options g in
  let oidc := newOIDCAuth options in
  (g',
   fun next r rw =>
     let rw1 :=
       if negb (String.eqb (OIDCIss options) EmptyString) && EnableBasicAuth options
       then oidc next r rw else rw in
     if negb (String.eqb (OIDCIss options) EmptyString) && negb (EnableBasicAuth options)
     then oidc next r rw1 else rw1).

End Old.

(** The header map after [writeSupportedAuthenticateHeader]. *)
Definition addChallenges (host : string) (strategies : list string) (h : Header) : Header :=
  fold_left (fun h s => Header_Add WwwAuthenticate (challenge s host) h) strategies h.

(** *** Bytes and runes *)

(** The first [k] bytes of [s] are above 127. *)
Fixpoint wideBytes (k : nat) (s : string) : Prop :=
  match k, s with
  | S k', String c s' => (128 <= N_of_ascii c)%N /\ wideBytes k' s'
  | _, _ => True
  end.

(** All the bytes of [s] are below 128. *)
Fixpoint asciiOnly (s : string) : Prop :=
  match s with
  | EmptyString => True
  | String c s' => (N_of_ascii c < 128)%N /\ asciiOnly s'
  end.

(** ** Sample configuration and requests *)

Module Sample.

Definition host : string := "cloud.example.org".

Definition request (method path userAgent : string) : Request :=
  {| Method := method; URL_Path := path; RequestURI := path; Host := host;
     ReqHeader := {[ "User-Agent" := [userAgent] ]}; ctx := [] |}.

(** An authenticator that never accepts. *)
Definition decline : Authenticator := {| Authenticate := fun r => (r, false) |}.

(** An authenticator for Basic credentials: it accepts the one
    [Authorization] value it knows and records the user in the context. *)
Definition basicAuth : Authenticator :=
  {| Authenticate := fun r =>
       if String.eqb (Header_Get "Authorization" (ReqHeader r)) "Basic Y2xpZW50OnNlY3JldA=="
       then ({| Method := Method r; URL_Path := URL_Path r; RequestURI := RequestURI r;
                Host := Host r; ReqHeader := ReqHeader r;
                ctx := ("user", "client") :: ctx r |}, true)
       else (r, false) |}.

(** An authenticator that accepts everything and marks the request. *)
Definition acceptAs (name : string) : Authenticator :=
  {| Authenticate := fun r =>
       ({| Method := Method r; URL_Path := URL_Path r; RequestURI := RequestURI r;
           Host := Host r; ReqHeader := ReqHeader r;
           ctx := ("user", name) :: ctx r |}, true) |}.

Definition withBasicCredentials (r : Request) : Request :=
  {| Method := Method r; URL_Path := URL_Path r; RequestURI := RequestURI r;
     Host := Host r;
     ReqHeader := <["Authorization" := ["Basic Y2xpZW50OnNlY3JldA=="]]> (ReqHeader r);
     ctx := ctx r |}.

(** A downstream handler that answers 200 with the path as body. *)
Definition next : Handler :=
  fun req rw => rw_Write (URL_Path req) (rw_WriteHeader StatusOK rw).

Definition legacyLock : gmap string string := {[ "LegacySyncClient" := "basic" ]}.

Definition versionLocks : gmap string string :=
  {[ "mirall/2" := "basic"; "mirall/3" := "bearer" ]}.

Definition sameSchemeLocks : gmap string string :=
  {[ "mirall/2" := "basic"; "mirall/3" := "basic" ]}.

(** The two bytes of the UTF-8 encoding of U+00E9. *)
Definition eAcute : string := String "195"%char (String "169"%char EmptyString).

Definition options (locks : gmap string string) : Options :=
  {| OIDCIss := "https://idp.example.org"; EnableBasicAuth := true;
     CredentialsByUserAgent := locks |}.

Definition noSchemes (locks : gmap string string) : Options :=
  {| OIDCIss := EmptyString; EnableBasicAuth := false; CredentialsByUserAgent := locks |}.

(** Every loop visits the entries in the order of [entries]. *)
Definition always (entries : list (string * string)) : MapOrder := fun _ => entries.

Definition bothSchemes : Globals := {| SupportedAuthStrategies := ["bearer"; "basic"] |}.

(** A writer on which an earlier middleware staged headers. *)
Definition staged : ResponseWriter :=
  rw_setHeader (fun _ => {[ "Www-Authenticate" := ["Negotiate"]; "X-Request-Id" := ["42"] ]})
    newResponseWriter.

End Sample.

(** * Properties *)

(** ** Strings *)

Lemma HasPrefix_append (p rest : string) : HasPrefix (p +:+ rest) p = true.
Proof.
  induction p as [|c p IH]; simpl; [done|].
  by rewrite Ascii.eqb_refl, IH.
Qed.

Lemma HasPrefix_inv (s p : string) :
  HasPrefix s p = true -> exists rest, s = p +:+ rest.
Proof.
  revert s; induction p as [|c p IH]; intros s H; simpl in *.
  - by exists s.
  - destruct s as [|d s]; [done|].
    apply andb_true_iff in H as [Hc Hp].
    apply Ascii.eqb_eq in Hc as ->.
    destruct (IH _ Hp) as [rest ->]. by exists rest.
Qed.

Lemma HasPrefix_empty (s : string) : HasPrefix s EmptyString = true.
Proof. by destruct s. Qed.

(** The empty string occurs within every string. *)
Lemma Contains_empty (s : string) : Contains s EmptyString = true.
Proof. destruct s; simpl; by rewrite ?HasPrefix_empty. Qed.

(** ** The scan of the lock mapping *)

Lemma firstLock_Some entries ua v :
  firstLock entries ua = Some v ->
  exists k, (k, v) ∈ entries /\ Contains k ua = true.
Proof.
  induction entries as [|[k' v'] entries IH]; simpl; [done|].
  destruct (Contains k' ua) eqn:E.
  - intros [= ->]. exists k'. split; [apply elem_of_cons; by left|done].
  - intros H. destruct (IH H) as (k & Hin & Hk). exists k.
    split; [apply elem_of_cons; by right|done].
Qed.

Lemma firstLock_None entries ua :
  firstLock entries ua = None <->
  forall k v, (k, v) ∈ entries -> Contains k ua = false.
Proof.
  induction entries as [|[k' v'] entries IH]; simpl.
  - split; [|done]. intros _ k v H. by apply elem_of_nil in H.
  - destruct (Contains k' ua) eqn:E.
    + split; [done|]. intros H.
      rewrite (H k' v') in E; [done|apply elem_of_cons; by left].
    + rewrite IH. split.
      * intros H k v [[= -> ->]|Hin]%elem_of_cons; [done|by eapply H].
      * intros H k v Hin. eapply H. apply elem_of_cons. by right.
Qed.

(** A valid order of the loop and the map agree on what applies. *)
Lemma firstLock_order_Some order (locks : gmap string string) n ua v :
  validOrder order locks ->
  firstLock (order n) ua = Some v ->
  exists k, locks !! k = Some v /\ Contains k ua = true.
Proof.
  intros Hord H. destruct (firstLock_Some _ _ _ H) as (k & Hin & Hk).
  exists k. split; [|done].
  rewrite (Hord n) in Hin. by apply elem_of_map_to_list in Hin.
Qed.

Lemma firstLock_order_None order (locks : gmap string string) n ua :
  validOrder order locks ->
  firstLock (order n) ua = None <-> ~ lockApplies locks ua.
Proof.
  intros Hord. rewrite firstLock_None. split.
  - intros H (k & v & Hkv & Hc).
    rewrite (H k v) in Hc; [done|].
    rewrite (Hord n). by apply elem_of_map_to_list.
  - intros H k v Hin. rewrite (Hord n) in Hin.
    apply elem_of_map_to_list in Hin.
    destruct (Contains k ua) eqn:E; [|done].
    destruct H. by exists k, v.
Qed.

Lemma firstLock_order_agree order1 order2 (locks : gmap string string) n1 n2 ua :
  validOrder order1 locks -> validOrder order2 locks ->
  locksAgree locks ua ->
  firstLock (order1 n1) ua = firstLock (order2 n2) ua.
Proof.
  intros H1 H2 Hag.
  destruct (firstLock (order1 n1) ua) as [v1|] eqn:E1,
           (firstLock (order2 n2) ua) as [v2|] eqn:E2; [| | |done].
  - destruct (firstLock_order_Some _ _ _ _ _ H1 E1) as (k1 & Hk1 & Hc1).
    destruct (firstLock_order_Some _ _ _ _ _ H2 E2) as (k2 & Hk2 & Hc2).
    f_equal. by eapply Hag.
  - destruct (firstLock_order_Some _ _ _ _ _ H1 E1) as (k1 & Hk1 & Hc1).
    apply (firstLock_order_None _ _ _ _ H2) in E2. destruct E2. by exists k1, v1.
  - destruct (firstLock_order_Some _ _ _ _ _ H2 E2) as (k2 & Hk2 & Hc2).
    apply (firstLock_order_None _ _ _ _ H1) in E1. destruct E1. by exists k2, v2.
Qed.

(** ** Path exemptions *)

(** No public path is left to the IdP. *)
Lemma public_not_handledByIdP (r : Request) :
  isPublicPath (URL_Path r) = true -> handledByIdP r = false.
Proof.
  unfold isPublicPath. intros H.
  apply existsb_exists in H as (pp & Hin & Hp).
  apply HasPrefix_inv in Hp as [rest Hrest].
  unfold handledByIdP, isOIDCTokenAuth. rewrite Hrest.
  simpl in Hin. repeat destruct Hin as [<-|Hin]; try reflexivity. destruct Hin.
Qed.

(** ** The response writer *)

Lemma rw_op_wrote op rw :
  wroteHeader rw = true ->
  wroteHeader (rw_op op rw) = true /\
  status (rw_op op rw) = status rw /\ sent (rw_op op rw) = sent rw.
Proof.
  intros H. destruct op; simpl; unfold rw_Write, rw_WriteHeader; rewrite ?H; done.
Qed.

(** Once the header is written, nothing a callee does changes the status
    or the header that was sent. *)
Lemma rw_ops_wrote ops rw :
  wroteHeader rw = true ->
  wroteHeader (rw_ops ops rw) = true /\
  status (rw_ops ops rw) = status rw /\ sent (rw_ops ops rw) = sent rw.
Proof.
  unfold rw_ops. revert rw. induction ops as [|op ops IH]; intros rw H; simpl; [done|].
  destruct (rw_op_wrote op rw H) as (H1 & H2 & H3).
  destruct (IH _ H1) as (H4 & H5 & H6). by rewrite H5, H6.
Qed.

Lemma Header_Values_Add key value h :
  Header_Values key (Header_Add key value h) = Header_Values key h ++ [value].
Proof. unfold Header_Values, Header_Add. by rewrite lookup_insert_eq. Qed.

Lemma Header_Values_Del key h : Header_Values key (Header_Del key h) = [].
Proof. unfold Header_Values, Header_Del. by rewrite lookup_delete_eq. Qed.

(** ** The chain of authenticators *)

(** When all decline, all were called, in order. *)
Lemma rangeAuths_decline auths i r st :
  declineAll auths r ->
  rangeAuths auths i r st =
    (None, outcome (globals st) (w st)
             (calls st ++ authCalls i (length auths) r) (ranges st)).
Proof.
  unfold declineAll. revert i st.
  induction auths as [|a auths IH]; intros i st H.
  - destruct st; simpl. unfold ret, outcome, authCalls; simpl. by rewrite app_nil_r.
  - apply Forall_cons in H as [Ha H].
    simpl. unfold bind, call. destruct (Authenticate a r) as [req ok]; simpl in Ha.
    subst ok. rewrite IH by done. unfold outcome; simpl.
    by rewrite <- app_assoc.
Qed.

(** When one accepts, the loop stops at the first that does. *)
Lemma rangeAuths_accept auths i r st :
  Exists (fun a => snd (Authenticate a r) = true) auths ->
  exists n a req,
    auths !! n = Some a /\ Authenticate a r = (req, true) /\
    (forall j b, j < n -> auths !! j = Some b -> snd (Authenticate b r) = false) /\
    rangeAuths auths i r st =
      (Some req, outcome (globals st) (w st)
                   (calls st ++ authCalls i (S n) r) (ranges st)).
Proof.
  revert i st. induction auths as [|a auths IH]; intros i st H.
  - by apply Exists_nil in H.
  - destruct (Authenticate a r) as [req ok] eqn:E. destruct ok.
    + exists 0, a, req. repeat split; [done|lia|].
      simpl. unfold bind, call. by rewrite E.
    + apply Exists_cons in H as [H|H]; [by rewrite E in H|].
      destruct (IH (S i) (outcome (globals st) (w st) (calls st ++ [CallAuthenticate i r])
                            (ranges st)) H)
        as (n & b & req' & Hn & Hb & Hlt & Hrun).
      exists (S n), b, req'. repeat split; [done|done| |].
      * intros [|j] c Hj Hc; simpl in Hc.
        -- injection Hc as <-. by rewrite E.
        -- eapply Hlt; [|done]. lia.
      * simpl. unfold bind, call. rewrite E. unfold outcome in Hrun. rewrite Hrun.
        unfold outcome; simpl. by rewrite <- app_assoc.
Qed.

(** ** The lock-in *)

Lemma lockScope_ocsCloud uri : lockScope uri = MatchString ocsCloud uri.
Proof. unfold lockScope, ProxyWwwAuthenticate. simpl. apply orb_false_r. Qed.

Lemma lockIn_out_of_scope order r locks s st :
  lockScope (RequestURI r) = false ->
  userAgentAuthenticateLockIn order r locks s st = (tt, st).
Proof.
  rewrite lockScope_ocsCloud. intros H.
  unfold userAgentAuthenticateLockIn, ProxyWwwAuthenticate, forEach, bind,
    evalRequestURI; simpl.
  by rewrite H.
Qed.

Lemma lockIn_in_scope order r locks s st :
  lockScope (RequestURI r) = true ->
  userAgentAuthenticateLockIn order r locks s st =
    (tt, outcome (globals st)
           (rw_setHeader (lockStep (order (ranges st)) (UserAgent r) (Host r) s) (w st))
           (calls st) (S (ranges st))).
Proof.
  rewrite lockScope_ocsCloud. intros H.
  unfold userAgentAuthenticateLockIn, ProxyWwwAuthenticate, forEach, bind,
    evalRequestURI, lockStep; simpl.
  rewrite H; simpl. unfold bind, rangeMap; simpl.
  by destruct (firstLock (order (ranges st)) (UserAgent r)).
Qed.

Lemma lockIn_loop_out_of_scope order r locks strategies st :
  lockScope (RequestURI r) = false ->
  forEach strategies (fun s => userAgentAuthenticateLockIn order r locks s) st = (tt, st).
Proof.
  intros H. induction strategies as [|s strategies IH]; simpl; [done|].
  unfold bind. by rewrite lockIn_out_of_scope.
Qed.

Lemma lockIn_loop_in_scope order r locks strategies st :
  lockScope (RequestURI r) = true ->
  forEach strategies (fun s => userAgentAuthenticateLockIn order r locks s) st =
    (tt, outcome (globals st)
           (rw_setHeader (lockLoop order (UserAgent r) (Host r) strategies (ranges st)) (w st))
           (calls st) (ranges st + length strategies)).
Proof.
  intros H. revert st. induction strategies as [|s strategies IH]; intros st.
  - destruct st as [g [h wh s se b] c n]. unfold ret, outcome, rw_setHeader; simpl.
    by rewrite Nat.add_0_r.
  - simpl forEach. unfold bind. rewrite lockIn_in_scope by done. rewrite IH.
    unfold outcome, rw_setHeader; simpl. do 2 f_equal. lia.
Qed.

(** No entry applies: every strategy adds its own challenge. *)
Lemma lockLoop_fallback order (locks : gmap string string) ua host strategies n h :
  validOrder order locks -> ~ lockApplies locks ua ->
  Header_Values WwwAuthenticate (lockLoop order ua host strategies n h) =
    Header_Values WwwAuthenticate h ++ map (fun s => challenge s host) strategies.
Proof.
  intros Hord Hno. revert n h.
  induction strategies as [|s strategies IH]; intros n h; simpl.
  - by rewrite app_nil_r.
  - rewrite IH. unfold lockStep.
    apply (firstLock_order_None order locks n ua Hord) in Hno. rewrite Hno.
    rewrite Header_Values_Add. by rewrite <- app_assoc.
Qed.

(** An entry applies: every strategy replaces what is staged by one locked
    challenge. *)
Lemma lockLoop_locked order (locks : gmap string string) ua host strategies n h :
  validOrder order locks -> lockApplies locks ua -> strategies <> [] ->
  exists k v, locks !! k = Some v /\ Contains k ua = true /\
    Header_Values WwwAuthenticate (lockLoop order ua host strategies n h) =
      [challenge v host].
Proof.
  intros Hord Hyes. revert n h.
  induction strategies as [|s strategies IH]; intros n h Hne; [done|].
  simpl. destruct strategies as [|s' strategies].
  - simpl. unfold lockStep.
    destruct (firstLock (order n) ua) as [v|] eqn:E.
    + destruct (firstLock_order_Some _ _ _ _ _ Hord E) as (k & Hk & Hc).
      exists k, v. repeat split; [done..|].
      by rewrite Header_Values_Add, Header_Values_Del.
    + by apply (firstLock_order_None order locks n ua Hord) in E.
  - by apply IH.
Qed.

(** When the entries that apply agree on the scheme, the order of the
    loops is immaterial. *)
Lemma lockLoop_agree order1 order2 (locks : gmap string string) ua host strategies n1 n2 h :
  validOrder order1 locks -> validOrder order2 locks -> locksAgree locks ua ->
  lockLoop order1 ua host strategies n1 h = lockLoop order2 ua host strategies n2 h.
Proof.
  intros H1 H2 Hag. revert n1 n2 h.
  induction strategies as [|s strategies IH]; intros n1 n2 h; simpl; [done|].
  unfold lockStep.
  rewrite (firstLock_order_agree order1 order2 locks n1 n2 ua H1 H2 Hag).
  apply IH.
Qed.

(** ** The handler *)

Section Handler.
Context {webdavPkg : webdav.Package}.

(** The failure path: the challenges are staged, the status is written,
    then the [webdav] package acts on the writer. *)
Lemma unauthorized_exec options order r st :
  wroteHeader (w st) = false ->
  exec (unauthorized options order r) st =
    let h' := negotiated order r (SupportedAuthStrategies (globals st))
                (ranges st) (header (w st)) in
    outcome (globals st)
      (rw_ops (faultOps r)
         {| header := h'; wroteHeader := true; status := StatusUnauthorized;
            sent := h'; body := body (w st) |})
      (calls st)
      (ranges st + negotiatedRanges r (SupportedAuthStrategies (globals st))).
Proof.
  intros Hw. unfold unauthorized, exec, bind, negotiated, negotiatedRanges, faultOps.
  destruct (isPublicPath (URL_Path r)); simpl.
  - unfold rw_WriteHeader. rewrite Hw. rewrite Nat.add_0_r.
    destruct (webdav.IsWebdavRequest r); [|done].
    by destruct (webdav.Marshal _).
  - destruct (lockScope (RequestURI r)) eqn:Hs.
    + rewrite lockIn_loop_in_scope by done. simpl.
      unfold rw_WriteHeader; simpl. rewrite Hw.
      destruct (webdav.IsWebdavRequest r); [|done].
      by destruct (webdav.Marshal _).
    + rewrite lockIn_loop_out_of_scope by done. simpl.
      unfold rw_WriteHeader. rewrite Hw. rewrite Nat.add_0_r.
      destruct (webdav.IsWebdavRequest r); [|done].
      by destruct (webdav.Marshal _).
Qed.

(** A request left to the IdP goes to the next handler as it is. *)
Lemma serve_handledByIdP auths options next order g rw r :
  handledByIdP r = true ->
  serve (ServeHTTP auths options) next order g rw r =
    outcome g (next r rw) [CallServeHTTP r] 0.
Proof. intros H. unfold serve, exec, ServeHTTP. by rewrite H. Qed.

(** A request that an authenticator accepts. *)
Lemma serve_accept auths options next order g rw r :
  handledByIdP r = false ->
  Exists (fun a => snd (Authenticate a r) = true) auths ->
  exists n a req,
    auths !! n = Some a /\ Authenticate a r = (req, true) /\
    (forall j b, j < n -> auths !! j = Some b -> snd (Authenticate b r) = false) /\
    serve (ServeHTTP auths options) next order g rw r =
      outcome g (next req rw) (authCalls 0 (S n) r ++ [CallServeHTTP req]) 0.
Proof.
  intros Hb Hex.
  destruct (rangeAuths_accept auths 0 r (outcome g rw [] 0) Hex)
    as (n & a & req & Hn & Ha & Hlt & Hrun).
  exists n, a, req. repeat split; [done..|].
  unfold serve, exec, ServeHTTP. rewrite Hb. unfold bind.
  unfold outcome in Hrun. by rewrite Hrun.
Qed.

(** An authenticator is seen to accept exactly when the request enters
    the chain and some authenticator of the chain accepts it. *)
Lemma accepting_call_iff auths options next order g rw r :
  (exists i a,
     CallAuthenticate i r ∈ calls (serve (ServeHTTP auths options) next order g rw r) /\
     auths !! i = Some a /\ snd (Authenticate a r) = true) <->
  handledByIdP r = false /\ Exists (fun a => snd (Authenticate a r) = true) auths.
Proof.
  split.
  - intros (i & a & Hin & Hi & Ha). destruct (handledByIdP r) eqn:Hb.
    + rewrite serve_handledByIdP in Hin by done. simpl in Hin.
      apply list_elem_of_singleton in Hin. discriminate.
    + split; [done|]. apply Exists_exists. exists a.
      split; [|done]. by eapply list_elem_of_lookup_2.
  - intros [Hb Hex].
    destruct (serve_accept auths options next order g rw r Hb Hex)
      as (n & a & req & Hn & Ha & _ & ->).
    exists n, a. split; [|split; [done|by rewrite Ha]].
    unfold outcome; cbn [calls]. apply elem_of_app. left. unfold authCalls.
    apply (list_elem_of_fmap_2 (fun j => CallAuthenticate j r)).
    apply elem_of_seq. lia.
Qed.

(** A request that every authenticator declines. *)
Lemma serve_decline auths options next order g rw r :
  handledByIdP r = false -> declineAll auths r -> wroteHeader rw = false ->
  serve (ServeHTTP auths options) next order g rw r =
    let h' := negotiated order r (SupportedAuthStrategies g) 0 (header rw) in
    outcome g
      (rw_ops (faultOps r)
         {| header := h'; wroteHeader := true; status := StatusUnauthorized;
            sent := h'; body := body rw |})
      (authCalls 0 (length auths) r)
      (negotiatedRanges r (SupportedAuthStrategies g)).
Proof.
  intros Hb Hd Hw. unfold serve, ServeHTTP. rewrite Hb.
  unfold exec, bind. rewrite rangeAuths_decline by done.
  pose proof (unauthorized_exec options order r
                (outcome g rw ([] ++ authCalls 0 (length auths) r) 0) Hw) as H.
  unfold exec in H. simpl in *. by rewrite H.
Qed.

End Handler.

(** ** The claims *)

(** C1, as stated, fails at two inputs.  Outside the scope of the lock-in,
    with bearer and basic both supported and no lock rule at all, the 401
    response to [/remote.php/webdav/doc.txt] carries no [Www-Authenticate]
    header, where the claim expects one per supported scheme.  Within the
    scope, with a lock rule whose key is the user agent and no scheme
    supported, the response carries no header either, where the claim
    expects exactly one for the locked scheme. *)
Lemma C1_counterexample_no_challenge :
  let auths := [Sample.decline] in
  (let r := Sample.request "GET" "/remote.php/webdav/doc.txt" "curl/8.0" in
   let options := Sample.options ∅ in
   let '(g, mw) := Authentication (webdavPkg := webdav.fromSpec) auths options initGlobals in
   let st := serve mw Sample.next (Sample.always []) g newResponseWriter r in
   handledByIdP r = false /\ isPublicPath (URL_Path r) = false /\
   declineAll auths r /\ ~ lockMatches (CredentialsByUserAgent options) (UserAgent r) /\
   SupportedAuthStrategies g = ["bearer"; "basic"] /\
   status (w st) = 401 /\
   challenges st = [] /\
   challenges st <> map (fun s => challenge s (Host r)) (SupportedAuthStrategies g)) /\
  (let r := Sample.request "GET" "/ocs/v1.php/cloud/user" "LegacySyncClient" in
   let options := Sample.noSchemes Sample.legacyLock in
   let order := Sample.always (map_to_list Sample.legacyLock) in
   let '(g, mw) := Authentication (webdavPkg := webdav.fromSpec) auths options initGlobals in
   let st := serve mw Sample.next order g newResponseWriter r in
   handledByIdP r = false /\ isPublicPath (URL_Path r) = false /\
   declineAll auths r /\ lockScope (RequestURI r) = true /\
   lockMatches (CredentialsByUserAgent options) (UserAgent r) /\
   SupportedAuthStrategies g = [] /\
   status (w st) = 401 /\
   challenges st = [] /\
   length (challenges st) <> 1).
Proof.
  simpl. split.
  - repeat split; try reflexivity.
    + by repeat constructor.
    + intros (k & v & H & _). by rewrite lookup_empty in H.
    + by vm_compute.
  - repeat split; try reflexivity.
    + by repeat constructor.
    + exists "LegacySyncClient", "basic". split; reflexivity.
    + by vm_compute.
Qed.

(** Where the two tests agree, a lock rule matches exactly when the
    handler finds an entry that applies. *)
Lemma testsAgree_lockApplies locks ua :
  testsAgree locks ua -> (lockApplies locks ua <-> lockMatches locks ua).
Proof.
  intros Hag. split; intros (k & v & Hkv & Hc); exists k, v; (split; [done|]).
  - by rewrite <- Hag by by eexists.
  - by rewrite Hag by by eexists.
Qed.

(** C1 (amended): a request that is neither left to the IdP nor public and
    that every authenticator declines is answered with status 401.  Outside
    the scope of [ProxyWwwAuthenticate] no [Www-Authenticate] header is
    sent.  Within the scope, and where the handler's test of the lock keys
    agrees with the one of the specification: when no lock rule matches,
    one challenge per supported scheme is sent, in configured order; when
    a lock rule matches and a scheme is supported, exactly one challenge
    is sent, for the scheme of a rule that matches.  Where the two tests
    disagree nothing is stated. *)
Theorem C1_challenges_of_declined_request
    (webdavPkg : webdav.Package) auths options next order g rw r :
  handledByIdP r = false ->
  isPublicPath (URL_Path r) = false ->
  declineAll auths r ->
  wroteHeader rw = false ->
  Header_Values WwwAuthenticate (header rw) = [] ->
  validOrder order (CredentialsByUserAgent options) ->
  let st := serve (ServeHTTP auths options) next order g rw r in
  let locks := CredentialsByUserAgent options in
  status (w st) = 401 /\
  (lockScope (RequestURI r) = false -> challenges st = []) /\
  (lockScope (RequestURI r) = true -> testsAgree locks (UserAgent r) ->
     ~ lockMatches locks (UserAgent r) ->
     challenges st = map (fun s => challenge s (Host r)) (SupportedAuthStrategies g)) /\
  (lockScope (RequestURI r) = true -> testsAgree locks (UserAgent r) ->
     lockMatches locks (UserAgent r) ->
     SupportedAuthStrategies g <> [] ->
     exists k v, locks !! k = Some v /\ Contains (UserAgent r) k = true /\
       challenges st = [challenge v (Host r)]).
Proof.
  intros Hb Hp Hd Hw Hh Hord st locks. subst st.
  rewrite serve_decline by done. unfold challenges, outcome; simpl.
  match goal with |- context [rw_ops ?ops ?rw0] =>
    destruct (rw_ops_wrote ops rw0 eq_refl) as (_ & -> & ->) end.
  simpl. unfold negotiated. rewrite Hp.
  split; [done|]. split; [|split].
  - by intros ->.
  - intros -> Hag Hno.
    rewrite (lockLoop_fallback _ locks), Hh; [done|done|].
    intros Hyes. by apply (testsAgree_lockApplies _ _ Hag) in Hyes.
  - intros -> Hag Hyes Hne.
    apply (testsAgree_lockApplies _ _ Hag) in Hyes.
    destruct (lockLoop_locked order locks (UserAgent r) (Host r)
                (SupportedAuthStrategies g) 0 (header rw) Hord Hyes Hne)
      as (k & v & Hkv & Hc & Hv).
    exists k, v. split; [done|]. split; [|done].
    by rewrite <- Hag by by eexists.
Qed.

Lemma C1_challenges_of_declined_request_witness :
  let auths := [Sample.decline] in
  let options := Sample.options Sample.legacyLock in
  let order := Sample.always (map_to_list Sample.legacyLock) in
  let run r := serve (ServeHTTP (webdavPkg := webdav.fromSpec) auths options)
                 Sample.next order Sample.bothSchemes newResponseWriter r in
  let locked := Sample.request "GET" "/ocs/v1.php/cloud/user" "LegacySyncClient" in
  let other := Sample.request "GET" "/ocs/v1.php/cloud/user" "curl/8.0" in
  (handledByIdP locked = false /\ isPublicPath (URL_Path locked) = false /\
   declineAll auths locked /\ wroteHeader newResponseWriter = false /\
   Header_Values WwwAuthenticate (header newResponseWriter) = [] /\
   validOrder order (CredentialsByUserAgent options)) /\
  (status (w (run locked)) = 401 /\
   exists k v, Sample.legacyLock !! k = Some v /\ Contains (UserAgent locked) k = true /\
     challenges (run locked) = [challenge v (Host locked)]) /\
  (status (w (run other)) = 401 /\
   challenges (run other) =
     map (fun s => challenge s (Host other)) ["bearer"; "basic"]).
Proof.
  intros auths options order run locked other.
  assert (validOrder order (CredentialsByUserAgent options)) as Hord.
  { intros n. reflexivity. }
  assert (forall r, declineAll auths r) as Hd.
  { intros r. repeat constructor. }
  assert (forall ua, (ua = "LegacySyncClient" \/ ua = "curl/8.0") ->
                     testsAgree Sample.legacyLock ua) as Hag.
  { intros ua Hua k [x Hx]. unfold Sample.legacyLock in Hx.
    apply lookup_singleton_Some in Hx as [<- _]. by destruct Hua as [-> | ->]. }
  split; [repeat split; auto|]. split.
  - destruct (C1_challenges_of_declined_request webdav.fromSpec auths options
                Sample.next order Sample.bothSchemes newResponseWriter locked
                eq_refl eq_refl (Hd locked) eq_refl eq_refl Hord) as (Hs & _ & _ & Hl).
    split; [exact Hs|].
    apply Hl; [reflexivity|apply Hag; by left| |discriminate].
    exists "LegacySyncClient", "basic". split; reflexivity.
  - destruct (C1_challenges_of_declined_request webdav.fromSpec auths options
                Sample.next order Sample.bothSchemes newResponseWriter other
                eq_refl eq_refl (Hd other) eq_refl eq_refl Hord) as (Hs & _ & Hf & _).
    split; [exact Hs|].
    apply Hf; [reflexivity|apply Hag; by right|].
    intros (k & v & Hkv & Hc). subst options. simpl in Hkv.
    unfold Sample.legacyLock in Hkv.
    apply lookup_singleton_Some in Hkv as [<- _]. discriminate Hc.
Defined.

(** A URI whose character before [php] is a two-byte code point is within
    the scope, and the declined request gets its challenges. *)
Lemma lockScope_wide_rune :
  let uri := "/ocs/v1" +:+ Sample.eAcute +:+ "php/cloud/" in
  let r := Sample.request "GET" uri "curl/8.0" in
  let st := serve (ServeHTTP (webdavPkg := webdav.fromSpec) [Sample.decline]
                     (Sample.options ∅))
              Sample.next (Sample.always []) Sample.bothSchemes newResponseWriter r in
  lockScope uri = true /\
  challenges st = map (fun s => challenge s (Host r)) ["bearer"; "basic"].
Proof. by vm_compute. Qed.

(** C2: the code at the input where it departs from the claim.  The lock
    key [LegacySyncClient] occurs within the user agent
    [LegacySyncClient/1.0] and the URI is within scope, yet
    [evalRequestURI] stages the challenge of the fallback scheme, not the
    one of the mapped scheme: its test asks whether the user agent occurs
    within the key.  With an empty user agent it stages the locked
    challenge although the key does not occur within the user agent. *)
Lemma C2_lock_test_is_reversed :
  let staged (ua : string) :=
    let l := {| l_r := Sample.request "GET" "/ocs/v1.php/cloud/user" ua;
                locks := Sample.legacyLock; fallback := "bearer" |} in
    Header_Values WwwAuthenticate
      (header (w (exec (evalRequestURI (Sample.always (map_to_list Sample.legacyLock))
                          l ocsCloud)
                    (outcome initGlobals newResponseWriter [] 0)))) in
  MatchString ocsCloud "/ocs/v1.php/cloud/user" = true /\
  Sample.legacyLock !! "LegacySyncClient" = Some "basic" /\
  (Contains "LegacySyncClient/1.0" "LegacySyncClient" = true /\
   staged "LegacySyncClient/1.0" = [challenge "bearer" Sample.host]) /\
  (Contains EmptyString "LegacySyncClient" = false /\
   staged EmptyString = [challenge "basic" Sample.host]).
Proof. by vm_compute. Qed.

(** C3, as stated, fails for a request that is left to the IdP: an
    authenticator of the chain would return [ok = true] for it, yet the
    next handler receives the request as it came, not the augmented one,
    and the authenticator is not called. *)
Lemma C3_counterexample_idp_path :
  let r := Sample.request "GET" "/login" "curl/8.0" in
  let a := Sample.acceptAs "first" in
  let st := serve (ServeHTTP (webdavPkg := webdav.fromSpec) [a] (Sample.options ∅))
              Sample.next (Sample.always []) Sample.bothSchemes newResponseWriter r in
  snd (Authenticate a r) = true /\
  fst (Authenticate a r) <> r /\
  calls st = [CallServeHTTP r] /\
  calls st <> [CallAuthenticate 0 r; CallServeHTTP (fst (Authenticate a r))].
Proof.
  simpl. repeat split; try reflexivity.
  - intros H. apply (f_equal ctx) in H. discriminate H.
  - by vm_compute.
Qed.

(** C3 (amended): for a request that is not left to the IdP and that some
    authenticator of the chain accepts, the response is the one of the
    next handler on the augmented request of the first authenticator in
    configured order that accepts; the authenticators up to that one were
    called, in order, and none after it. *)
Theorem C3_first_accepting_authenticator_wins
    (webdavPkg : webdav.Package) auths options next order g rw r :
  handledByIdP r = false ->
  Exists (fun a => snd (Authenticate a r) = true) auths ->
  let st := serve (ServeHTTP auths options) next order g rw r in
  exists n a req,
    auths !! n = Some a /\ Authenticate a r = (req, true) /\
    (forall j b, j < n -> auths !! j = Some b -> snd (Authenticate b r) = false) /\
    w st = next req rw /\
    calls st = authCalls 0 (S n) r ++ [CallServeHTTP req].
Proof.
  intros Hb Hex st. subst st.
  destruct (serve_accept auths options next order g rw r Hb Hex)
    as (n & b & req & Hn & Hbq & Hlt & ->).
  by exists n, b, req.
Qed.

Lemma C3_first_accepting_authenticator_wins_witness :
  let r := Sample.request "GET" "/remote.php/webdav/doc.txt" "curl/8.0" in
  let auths := [Sample.decline; Sample.acceptAs "first"; Sample.acceptAs "second"] in
  let st := serve (ServeHTTP (webdavPkg := webdav.fromSpec) auths (Sample.options ∅))
              Sample.next (Sample.always []) Sample.bothSchemes newResponseWriter r in
  (handledByIdP r = false /\
   Exists (fun a => snd (Authenticate a r) = true) auths) /\
  exists n a req,
    auths !! n = Some a /\ Authenticate a r = (req, true) /\
    (forall j b, j < n -> auths !! j = Some b -> snd (Authenticate b r) = false) /\
    w st = Sample.next req newResponseWriter /\
    calls st = authCalls 0 (S n) r ++ [CallServeHTTP req].
Proof.
  intros r auths st.
  assert (Exists (fun a => snd (Authenticate a r) = true) auths) as Hex.
  { apply Exists_cons_tl, Exists_cons_hd. reflexivity. }
  split; [by split|].
  exact (C3_first_accepting_authenticator_wins webdav.fromSpec auths (Sample.options ∅)
           Sample.next (Sample.always []) Sample.bothSchemes newResponseWriter r
           eq_refl Hex).
Defined.

(** The paths that the specification gives as owned by the IdP are left
    to it. *)
Lemma idp_paths_handledByIdP :
  Forall (fun p => handledByIdP (Sample.request "GET" p EmptyString) = true)
    ["/"; "/login"; "/.well-known/openid-configuration"; "/js/chunk.js";
     "/themes/owncloud/theme.json"; "/signin/v1/identifier";
     "/konnect/v1/token"; "/konnect/v1/userinfo"; "/config.json";
     "/oidc-callback.html"; "/oidc-callback"; "/settings.js"].
Proof. repeat constructor. Qed.

(** C4: a request that the handler leaves to the IdP gets exactly the
    response of the next handler on the request as it came, and the only
    call made is the one to the next handler: no authenticator is
    invoked. *)
Theorem C4_idp_paths_pass_through
    (webdavPkg : webdav.Package) auths options next order g rw r :
  handledByIdP r = true ->
  let st := serve (ServeHTTP auths options) next order g rw r in
  w st = next r rw /\
  calls st = [CallServeHTTP r] /\
  (forall i r', CallAuthenticate i r' ∉ calls st) /\
  globals st = g.
Proof.
  intros Hb st. subst st. rewrite serve_handledByIdP by done. simpl.
  repeat split. intros i r' Hin. apply list_elem_of_singleton in Hin. discriminate.
Qed.

Lemma C4_idp_paths_pass_through_witness :
  let r := Sample.withBasicCredentials
             (Sample.request "GET" "/.well-known/openid-configuration" "curl/8.0") in
  let auths := [Sample.basicAuth] in
  let st := serve (ServeHTTP (webdavPkg := webdav.fromSpec) auths (Sample.options ∅))
              Sample.next (Sample.always []) Sample.bothSchemes newResponseWriter r in
  handledByIdP r = true /\
  w st = Sample.next r newResponseWriter /\
  calls st = [CallServeHTTP r] /\
  (forall i r', CallAuthenticate i r' ∉ calls st) /\
  globals st = Sample.bothSchemes.
Proof.
  intros r auths st. split; [reflexivity|].
  apply (C4_idp_paths_pass_through webdav.fromSpec auths (Sample.options ∅)
           Sample.next (Sample.always []) Sample.bothSchemes newResponseWriter r).
  reflexivity.
Defined.

(** C5, as stated, fails: a request to [/konnect/v1/token] with Basic
    client credentials that the Basic authenticator of the chain would
    accept is forwarded, but the authenticator is not invoked for it. *)
Lemma C5_counterexample_basic_not_invoked :
  let r := Sample.withBasicCredentials
             (Sample.request "POST" "/konnect/v1/token" "curl/8.0") in
  let auths := [Sample.basicAuth] in
  let st := serve (ServeHTTP (webdavPkg := webdav.fromSpec) auths (Sample.options ∅))
              Sample.next (Sample.always []) Sample.bothSchemes newResponseWriter r in
  isOIDCTokenAuth r = true /\
  snd (Authenticate Sample.basicAuth r) = true /\
  calls st = [CallServeHTTP r] /\
  ~ (exists i, CallAuthenticate i r ∈ calls st).
Proof.
  simpl. repeat split; try reflexivity.
  intros (i & Hin). vm_compute in Hin.
  apply list_elem_of_singleton in Hin. discriminate.
Qed.

(** C5 (amended): a request to the exact path [/konnect/v1/token] is left
    to the IdP, whatever the chain and the options are: it is forwarded to
    the next handler as it came, and no authenticator, the one for Basic
    included, is invoked. *)
Theorem C5_token_endpoint_pass_through
    (webdavPkg : webdav.Package) auths options next order g rw r :
  isOIDCTokenAuth r = true ->
  let st := serve (ServeHTTP auths options) next order g rw r in
  handledByIdP r = true /\
  w st = next r rw /\
  calls st = [CallServeHTTP r].
Proof.
  intros Ht st. subst st.
  assert (handledByIdP r = true) as Hb.
  { unfold handledByIdP. by rewrite Ht. }
  by rewrite serve_handledByIdP.
Qed.

Lemma C5_token_endpoint_pass_through_witness :
  let r := Sample.withBasicCredentials
             (Sample.request "POST" "/konnect/v1/token" "curl/8.0") in
  let auths := [Sample.basicAuth] in
  let options := Sample.noSchemes ∅ in
  let st := serve (ServeHTTP (webdavPkg := webdav.fromSpec) auths options)
              Sample.next (Sample.always []) initGlobals newResponseWriter r in
  isOIDCTokenAuth r = true /\
  handledByIdP r = true /\
  w st = Sample.next r newResponseWriter /\
  calls st = [CallServeHTTP r].
Proof.
  intros r auths options st. split; [reflexivity|].
  apply (C5_token_endpoint_pass_through webdav.fromSpec auths options
           Sample.next (Sample.always []) initGlobals newResponseWriter r).
  reflexivity.
Defined.

(** C6: a request on a public path that every authenticator declines is
    answered with status 401 and without any [Www-Authenticate] header. *)
Theorem C6_public_path_no_challenge
    (webdavPkg : webdav.Package) auths options next order g rw r :
  isPublicPath (URL_Path r) = true ->
  declineAll auths r ->
  wroteHeader rw = false ->
  Header_Values WwwAuthenticate (header rw) = [] ->
  let st := serve (ServeHTTP auths options) next order g rw r in
  status (w st) = 401 /\ challenges st = [].
Proof.
  intros Hp Hd Hw Hh st. subst st.
  rewrite serve_decline by auto using public_not_handledByIdP.
  unfold challenges, outcome; simpl.
  match goal with |- context [rw_ops ?ops ?rw0] =>
    destruct (rw_ops_wrote ops rw0 eq_refl) as (_ & -> & ->) end.
  simpl. unfold negotiated. by rewrite Hp.
Qed.

Lemma C6_public_path_no_challenge_witness :
  let r := Sample.request "GET" "/dav/public-files/abc" "curl/8.0" in
  let auths := [Sample.decline] in
  let options := Sample.options Sample.legacyLock in
  let order := Sample.always (map_to_list Sample.legacyLock) in
  let st := serve (ServeHTTP (webdavPkg := webdav.fromSpec) auths options)
              Sample.next order Sample.bothSchemes newResponseWriter r in
  (isPublicPath (URL_Path r) = true /\ declineAll auths r /\
   wroteHeader newResponseWriter = false /\
   Header_Values WwwAuthenticate (header newResponseWriter) = []) /\
  status (w st) = 401 /\ challenges st = [].
Proof.
  intros r auths options order st.
  assert (declineAll auths r) as Hd by repeat constructor.
  split; [repeat split; [exact Hd]|].
  exact (C6_public_path_no_challenge webdav.fromSpec auths options Sample.next order
           Sample.bothSchemes newResponseWriter r eq_refl Hd eq_refl eq_refl).
Defined.

(** C7, as stated, fails for a request that is not a WebDAV one: the
    handler writes the status 401 and nothing else, so the body is empty,
    not the generic status text. *)
Lemma C7_counterexample_empty_body :
  let r := Sample.request "GET" "/ocs/v1.php/cloud/user" "curl/8.0" in
  let auths := [Sample.decline] in
  let st := serve (ServeHTTP (webdavPkg := webdav.fromSpec) auths (Sample.options ∅))
              Sample.next (Sample.always []) Sample.bothSchemes newResponseWriter r in
  handledByIdP r = false /\ declineAll auths r /\
  webdav.IsWebdavRequest (Package := webdav.fromSpec) r = false /\
  status (w st) = 401 /\
  body (w st) = EmptyString /\
  body (w st) <> StatusText StatusUnauthorized.
Proof.
  simpl. repeat split; try reflexivity.
  - by repeat constructor.
  - by vm_compute.
Qed.

(** C7 (amended): the response to a request that is not left to the IdP
    and that every authenticator declines has status 401, whatever the
    [webdav] package is.  When the request is not a WebDAV one, nothing
    is written to the body.  When it is one, with the package as the
    specification describes it, the body written is the WebDAV fault with
    the code for "permission denied" and the message "Authentication
    error". *)
Theorem C7_failure_response
    (webdavPkg : webdav.Package) auths options next order g rw r :
  handledByIdP r = false ->
  declineAll auths r ->
  wroteHeader rw = false ->
  let st := serve (ServeHTTP auths options) next order g rw r in
  let st' := serve (ServeHTTP (webdavPkg := webdav.fromSpec) auths options)
               next order g rw r in
  status (w st) = 401 /\
  (webdav.IsWebdavRequest r = false -> body (w st) = body rw) /\
  (webdav.specIsWebdavRequest r = true ->
     status (w st') = 401 /\
     body (w st') =
       body rw +:+ webdav.faultXML "permission-denied" "Authentication error").
Proof.
  intros Hb Hd Hw st st'. subst st st'.
  rewrite !serve_decline by done. unfold outcome; simpl.
  split; [|split].
  - match goal with |- context [rw_ops (faultOps r) ?rw0] =>
      by destruct (rw_ops_wrote (faultOps r) rw0 eq_refl) as (_ & -> & _) end.
  - unfold faultOps. by intros ->.
  - intros Hdav. unfold faultOps.
    change (webdav.IsWebdavRequest (Package := webdav.fromSpec) r)
      with (webdav.specIsWebdavRequest r).
    rewrite Hdav. done.
Qed.

Lemma C7_failure_response_witness :
  let r := Sample.request "PROPFIND" "/remote.php/webdav/doc.txt" "curl/8.0" in
  let auths := [Sample.decline] in
  let st := serve (ServeHTTP (webdavPkg := webdav.fromSpec) auths (Sample.options ∅))
              Sample.next (Sample.always []) Sample.bothSchemes newResponseWriter r in
  (handledByIdP r = false /\ declineAll auths r /\
   wroteHeader newResponseWriter = false) /\
  status (w st) = 401 /\
  body (w st) = webdav.faultXML "permission-denied" "Authentication error".
Proof.
  intros r auths st.
  assert (declineAll auths r) as Hd by repeat constructor.
  split; [repeat split; exact Hd|].
  destruct (C7_failure_response webdav.fromSpec auths (Sample.options ∅) Sample.next
              (Sample.always []) Sample.bothSchemes newResponseWriter r eq_refl Hd eq_refl)
    as (_ & _ & Hdav).
  exact (Hdav eq_refl).
Defined.

(** With the package as the specification describes it, the body of the
    response to a declined [PROPFIND] is the fault with the code for
    "permission denied" and the message "Authentication error". *)
Lemma webdav_fault_body_fromSpec :
  let r := Sample.request "PROPFIND" "/remote.php/webdav/doc.txt" "curl/8.0" in
  let st := serve (ServeHTTP (webdavPkg := webdav.fromSpec) [Sample.decline]
                     (Sample.options ∅))
              Sample.next (Sample.always []) Sample.bothSchemes newResponseWriter r in
  status (w st) = 401 /\
  body (w st) =
    "<error><code>permission-denied</code><message>Authentication error</message></error>".
Proof. by vm_compute. Qed.

(** C8, as stated, fails: with two lock keys that both pass the test
    against the user agent and name different schemes, the same request
    under the same configuration is answered with a different challenge
    according to the order in which the loop visits the lock mapping. *)
Lemma C8_counterexample_map_order :
  let r := Sample.request "GET" "/ocs/v1.php/cloud/user" "mirall" in
  let options := Sample.options Sample.versionLocks in
  let order1 := Sample.always [("mirall/2", "basic"); ("mirall/3", "bearer")] in
  let order2 := Sample.always [("mirall/3", "bearer"); ("mirall/2", "basic")] in
  let run order :=
    serve (ServeHTTP (webdavPkg := webdav.fromSpec) [Sample.decline] options)
      Sample.next order Sample.bothSchemes newResponseWriter r in
  validOrder order1 (CredentialsByUserAgent options) /\
  validOrder order2 (CredentialsByUserAgent options) /\
  challenges (run order1) = [challenge "basic" Sample.host] /\
  challenges (run order2) = [challenge "bearer" Sample.host] /\
  challenges (run order1) <> challenges (run order2).
Proof.
  simpl. repeat split.
  - intros n. vm_compute. first [reflexivity | apply perm_swap].
  - intros n. vm_compute. first [reflexivity | apply perm_swap].
  - by vm_compute.
Qed.

Section Determinism.
Context {webdavPkg : webdav.Package}.

Lemma unauthorized_agree options order1 order2 r st :
  validOrder order1 (CredentialsByUserAgent options) ->
  validOrder order2 (CredentialsByUserAgent options) ->
  locksAgree (CredentialsByUserAgent options) (UserAgent r) ->
  unauthorized options order1 r st = unauthorized options order2 r st.
Proof.
  intros H1 H2 Hag. unfold unauthorized, bind.
  destruct (isPublicPath (URL_Path r)); simpl; [done|].
  destruct (lockScope (RequestURI r)) eqn:Hs.
  - rewrite !lockIn_loop_in_scope by done. unfold rw_setHeader; simpl.
    by rewrite (lockLoop_agree order1 order2 (CredentialsByUserAgent options)
                  (UserAgent r) (Host r) _ (ranges st) (ranges st)).
  - by rewrite !lockIn_loop_out_of_scope.
Qed.

End Determinism.

(** C8 (amended): when all the lock entries that pass the test against the
    user agent name the same scheme, two evaluations of the same request
    under the same configuration and package state end in the same state,
    whatever the orders in which the loops visit the lock mapping: same
    calls, same response, same challenges. *)
Theorem C8_same_outcome_when_locks_agree
    (webdavPkg : webdav.Package) auths options next order1 order2 g rw r :
  validOrder order1 (CredentialsByUserAgent options) ->
  validOrder order2 (CredentialsByUserAgent options) ->
  locksAgree (CredentialsByUserAgent options) (UserAgent r) ->
  serve (ServeHTTP auths options) next order1 g rw r =
  serve (ServeHTTP auths options) next order2 g rw r.
Proof.
  intros H1 H2 Hag. unfold serve, exec, ServeHTTP.
  destruct (handledByIdP r); [done|]. unfold bind.
  destruct (rangeAuths auths 0 r _) as [[req|] st]; [done|].
  by rewrite (unauthorized_agree options order1 order2).
Qed.

Lemma C8_same_outcome_when_locks_agree_witness :
  let r := Sample.request "GET" "/ocs/v1.php/cloud/user" "mirall" in
  let options := Sample.options Sample.sameSchemeLocks in
  let order1 := Sample.always [("mirall/2", "basic"); ("mirall/3", "basic")] in
  let order2 := Sample.always [("mirall/3", "basic"); ("mirall/2", "basic")] in
  let run order :=
    serve (ServeHTTP (webdavPkg := webdav.fromSpec) [Sample.decline] options)
      Sample.next order Sample.bothSchemes newResponseWriter r in
  (validOrder order1 (CredentialsByUserAgent options) /\
   validOrder order2 (CredentialsByUserAgent options) /\
   locksAgree (CredentialsByUserAgent options) (UserAgent r)) /\
  order1 0 <> order2 0 /\
  Contains "mirall/2" (UserAgent r) = true /\
  Contains "mirall/3" (UserAgent r) = true /\
  run order1 = run order2.
Proof.
  intros r options order1 order2 run.
  assert (validOrder order1 (CredentialsByUserAgent options)) as H1.
  { intros n. vm_compute. first [reflexivity | apply perm_swap]. }
  assert (validOrder order2 (CredentialsByUserAgent options)) as H2.
  { intros n. vm_compute. first [reflexivity | apply perm_swap]. }
  assert (locksAgree (CredentialsByUserAgent options) (UserAgent r)) as Hag.
  { assert (forall k v, Sample.sameSchemeLocks !! k = Some v -> v = "basic") as Hv.
    { intros k v Hkv. unfold Sample.sameSchemeLocks in Hkv.
      apply lookup_insert_Some in Hkv as [[_ <-]|[_ Hkv]]; [done|].
      by apply lookup_singleton_Some in Hkv as [_ <-]. }
    intros k1 v1 k2 v2 Hk1 Hk2 _ _.
    apply Hv in Hk1, Hk2. congruence. }
  split; [by repeat split|].
  split; [discriminate|]. split; [reflexivity|]. split; [reflexivity|].
  exact (C8_same_outcome_when_locks_agree webdav.fromSpec [Sample.decline] options
           Sample.next order1 order2 Sample.bothSchemes newResponseWriter r H1 H2 Hag).
Defined.

(** ** The package state *)

(** Setting up the middleware appends the configured schemes to whatever
    the package variable holds. *)
Lemma configureSupportedChallenges_appends options g :
  SupportedAuthStrategies (configureSupportedChallenges options g) =
  SupportedAuthStrategies g ++ configuredSchemes options.
Proof.
  unfold configureSupportedChallenges, configuredSchemes.
  destruct (negb (OIDCIss options =? EmptyString)%string), (EnableBasicAuth options); simpl;
    rewrite ?app_nil_r, <- ?app_assoc; done.
Qed.

Lemma rangeAuths_globals auths i r st :
  globals (snd (rangeAuths auths i r st)) = globals st.
Proof.
  revert i st. induction auths as [|a auths IH]; intros i st; simpl; [done|].
  unfold bind, call. destruct (Authenticate a r) as [req [|]]; simpl; [done|].
  by rewrite IH.
Qed.

Section PackageState.
Context {webdavPkg : webdav.Package}.

Lemma unauthorized_globals options order r st :
  globals (exec (unauthorized options order r) st) = globals st.
Proof.
  unfold unauthorized, exec, bind.
  destruct (isPublicPath (URL_Path r)); simpl.
  - destruct (webdav.IsWebdavRequest r); [|done]. by destruct (webdav.Marshal _).
  - destruct (lockScope (RequestURI r)) eqn:Hs.
    + rewrite lockIn_loop_in_scope by done. simpl.
      destruct (webdav.IsWebdavRequest r); [|done]. by destruct (webdav.Marshal _).
    + rewrite lockIn_loop_out_of_scope by done. simpl.
      destruct (webdav.IsWebdavRequest r); [|done]. by destruct (webdav.Marshal _).
Qed.

(** Serving a request leaves the package variables as they are. *)
Lemma serve_globals auths options next order g rw r :
  globals (serve (ServeHTTP auths options) next order g rw r) = g.
Proof.
  unfold serve, exec, ServeHTTP. destruct (handledByIdP r); [done|].
  unfold bind.
  pose proof (rangeAuths_globals auths 0 r
                {| globals := g; w := rw; calls := []; ranges := 0 |}) as Hg.
  destruct (rangeAuths auths 0 r _) as [[req|] st]; simpl in Hg; [done|].
  pose proof (unauthorized_globals options order r st) as Hu.
  unfold exec in Hu. by rewrite Hu.
Qed.

End PackageState.

(** C9, as stated, fails: the list of supported schemes is not built
    once.  A handler is set up and serves a request; a second set-up with
    the same options then appends to the list again, so that it is no
    longer the list of the configured schemes and names each scheme
    twice. *)
Lemma C9_counterexample_second_setup :
  let options := Sample.options ∅ in
  let auths := [Sample.decline] in
  let r := Sample.request "GET" "/remote.php/webdav/doc.txt" "curl/8.0" in
  let setup1 := Authentication (webdavPkg := webdav.fromSpec) auths options initGlobals in
  let served := serve (snd setup1) Sample.next (Sample.always []) (fst setup1)
                  newResponseWriter r in
  let setup2 := Authentication (webdavPkg := webdav.fromSpec) auths options
                  (globals served) in
  SupportedAuthStrategies (fst setup1) = ["bearer"; "basic"] /\
  SupportedAuthStrategies (fst setup2) = ["bearer"; "basic"; "bearer"; "basic"] /\
  SupportedAuthStrategies (fst setup2) <> SupportedAuthStrategies (fst setup1) /\
  SupportedAuthStrategies (fst setup2) <> configuredSchemes options.
Proof. simpl. repeat split; try reflexivity; by vm_compute. Qed.

(** C9 (amended): each set-up of the middleware appends to the list of
    supported schemes, before the handler it returns serves any request,
    "bearer" iff the OIDC issuer is not empty, then "basic" iff Basic auth
    is enabled; from the initial package state the list is exactly these
    schemes, and a further set-up appends again.  Serving a request leaves
    the package state as it was, so the list is still the same after any
    sequence of requests. *)
Theorem C9_supported_schemes_fixed_at_setup
    (webdavPkg : webdav.Package) auths options next reqs g :
  let setup := Authentication auths options g in
  SupportedAuthStrategies (fst setup) =
    SupportedAuthStrategies g ++
    (if negb (String.eqb (OIDCIss options) EmptyString) then ["bearer"] else []) ++
    (if EnableBasicAuth options then ["basic"] else []) /\
  ("bearer" ∈ configuredSchemes options <-> OIDCIss options <> EmptyString) /\
  ("basic" ∈ configuredSchemes options <-> EnableBasicAuth options = true) /\
  (g = initGlobals -> SupportedAuthStrategies (fst setup) = configuredSchemes options) /\
  (forall order g' rw r, globals (serve (snd setup) next order g' rw r) = g') /\
  serveAll (snd setup) next (fst setup) reqs = fst setup.
Proof.
  simpl. rewrite configureSupportedChallenges_appends.
  split; [done|]. split; [|split; [|split; [|split]]].
  - unfold configuredSchemes.
    destruct (OIDCIss options =? EmptyString)%string eqn:E; simpl.
    + apply String.eqb_eq in E.
      destruct (EnableBasicAuth options); simpl; split; intros H; try done.
      * apply list_elem_of_singleton in H. discriminate.
      * by apply elem_of_nil in H.
    + apply String.eqb_neq in E.
      split; [done|]. intros _. apply elem_of_cons. by left.
  - unfold configuredSchemes.
    destruct (EnableBasicAuth options); simpl.
    + split; [done|]. intros _. apply elem_of_app. right. apply elem_of_cons. by left.
    + rewrite app_nil_r. split; [|done].
      destruct (negb (OIDCIss options =? EmptyString)%string); intros H.
      * apply list_elem_of_singleton in H. discriminate.
      * by apply elem_of_nil in H.
  - by intros ->.
  - intros order g' rw r. apply serve_globals.
  - induction reqs as [|[[order rw] r] reqs IH]; simpl; [done|].
    by rewrite serve_globals.
Qed.

(** C10, as stated, fails when no scheme is supported: the loop over the
    supported strategies has nothing to visit, the lock mapping is never
    looked at and the 401 response carries no challenge at all. *)
Lemma C10_counterexample_no_scheme :
  let r := Sample.request "GET" "/ocs/v1.php/cloud/user" EmptyString in
  let auths := [Sample.decline] in
  let options := Sample.noSchemes Sample.versionLocks in
  let order := Sample.always (map_to_list Sample.versionLocks) in
  let '(g, mw) := Authentication (webdavPkg := webdav.fromSpec) auths options initGlobals in
  let st := serve mw Sample.next order g newResponseWriter r in
  handledByIdP r = false /\ isPublicPath (URL_Path r) = false /\
  declineAll auths r /\ lockScope (RequestURI r) = true /\
  CredentialsByUserAgent options <> ∅ /\ UserAgent r = EmptyString /\
  validOrder order (CredentialsByUserAgent options) /\
  status (w st) = 401 /\
  challenges st = [] /\
  length (challenges st) <> 1.
Proof.
  simpl. repeat split; try reflexivity.
  - by repeat constructor.
  - intros H. apply (f_equal (fun m : gmap string string => m !! "mirall/2")) in H.
    by vm_compute in H.
  - intros n. reflexivity.
  - by vm_compute.
Qed.

(** C10 (amended): for a request within the scope of the lock-in that is
    neither left to the IdP nor public and that every authenticator
    declines, when the lock mapping is not empty and the user agent is
    empty, the test passes for every lock key and no loop over the mapping
    reaches the fallback; when moreover at least one scheme is supported,
    the response carries exactly one challenge, for the scheme of some
    lock entry. *)
Theorem C10_empty_user_agent_is_locked
    (webdavPkg : webdav.Package) auths options next order g rw r :
  handledByIdP r = false ->
  isPublicPath (URL_Path r) = false ->
  declineAll auths r ->
  wroteHeader rw = false ->
  lockScope (RequestURI r) = true ->
  CredentialsByUserAgent options <> ∅ ->
  UserAgent r = EmptyString ->
  validOrder order (CredentialsByUserAgent options) ->
  SupportedAuthStrategies g <> [] ->
  let st := serve (ServeHTTP auths options) next order g rw r in
  let locks := CredentialsByUserAgent options in
  (forall k v, locks !! k = Some v -> Contains k (UserAgent r) = true) /\
  (forall n, firstLock (order n) (UserAgent r) <> None) /\
  exists k v, locks !! k = Some v /\ challenges st = [challenge v (Host r)].
Proof.
  intros Hb Hp Hd Hw Hs Hne Hua Hord Hg st locks. subst st locks.
  assert (lockApplies (CredentialsByUserAgent options) (UserAgent r)) as Hyes.
  { destruct (map_choose _ Hne) as (k & v & Hkv).
    exists k, v. split; [done|]. rewrite Hua. apply Contains_empty. }
  split; [|split].
  - intros k v _. rewrite Hua. apply Contains_empty.
  - intros n Hnone.
    by apply (firstLock_order_None order _ n (UserAgent r) Hord) in Hnone.
  - rewrite serve_decline by done. unfold challenges, outcome; simpl.
    match goal with |- context [rw_ops ?ops ?rw0] =>
      destruct (rw_ops_wrote ops rw0 eq_refl) as (_ & _ & ->) end.
    simpl. unfold negotiated. rewrite Hp, Hs.
    destruct (lockLoop_locked order (CredentialsByUserAgent options) (UserAgent r)
                (Host r) (SupportedAuthStrategies g) 0 (header rw) Hord Hyes Hg)
      as (k & v & Hkv & _ & Hv).
    by exists k, v.
Qed.

Lemma C10_empty_user_agent_is_locked_witness :
  let r := Sample.request "GET" "/ocs/v1.php/cloud/user" EmptyString in
  let auths := [Sample.decline] in
  let options := Sample.options Sample.versionLocks in
  let order := Sample.always (map_to_list Sample.versionLocks) in
  let g := Sample.bothSchemes in
  let st := serve (ServeHTTP (webdavPkg := webdav.fromSpec) auths options)
              Sample.next order g newResponseWriter r in
  (handledByIdP r = false /\ isPublicPath (URL_Path r) = false /\
   declineAll auths r /\ wroteHeader newResponseWriter = false /\
   lockScope (RequestURI r) = true /\ CredentialsByUserAgent options <> ∅ /\
   UserAgent r = EmptyString /\ validOrder order (CredentialsByUserAgent options) /\
   SupportedAuthStrategies g <> []) /\
  (forall k v, Sample.versionLocks !! k = Some v -> Contains k (UserAgent r) = true) /\
  (forall n, firstLock (order n) (UserAgent r) <> None) /\
  exists k v, Sample.versionLocks !! k = Some v /\ challenges st = [challenge v (Host r)].
Proof.
  intros r auths options order g st.
  assert (declineAll auths r) as Hd by repeat constructor.
  assert (CredentialsByUserAgent options <> ∅) as Hne.
  { intros H. apply (f_equal (fun m : gmap string string => m !! "mirall/2")) in H.
    vm_compute in H. discriminate. }
  assert (validOrder order (CredentialsByUserAgent options)) as Hord.
  { intros n. reflexivity. }
  assert (SupportedAuthStrategies g <> []) as Hg by discriminate.
  split; [repeat split; assumption|].
  exact (C10_empty_user_agent_is_locked webdav.fromSpec auths options Sample.next order g
           newResponseWriter r eq_refl eq_refl Hd eq_refl eq_refl Hne eq_refl Hord Hg).
Defined.

(** * Further properties of the package *)

(** ** Strings and patterns *)

Lemma HasPrefix_refl (s : string) : HasPrefix s s = true.
Proof. induction s as [|c s IH]; simpl; [done|]. by rewrite Ascii.eqb_refl, IH. Qed.

Lemma Contains_refl (s : string) : Contains s s = true.
Proof. destruct s; simpl; [done|]. by rewrite Ascii.eqb_refl, HasPrefix_refl. Qed.

Lemma append_cons (c : ascii) (a b : string) : String c a +:+ b = String c (a +:+ b).
Proof. reflexivity. Qed.

Lemma append_nil (b : string) : EmptyString +:+ b = b.
Proof. reflexivity. Qed.

Lemma append_assoc (a b c : string) : (a +:+ b) +:+ c = a +:+ (b +:+ c).
Proof.
  induction a as [|x a IH]; [done|].
  by rewrite !append_cons, IH.
Qed.

Lemma HasPrefix_extend (s p q : string) :
  HasPrefix s p = true -> HasPrefix (s +:+ q) p = true.
Proof.
  intros H. apply HasPrefix_inv in H as [rest Hs]. subst s.
  rewrite append_assoc. apply HasPrefix_append.
Qed.

Lemma HasPrefix_length (s p : string) :
  HasPrefix s p = true -> String.length p <= String.length s.
Proof.
  revert s. induction p as [|c p IH]; intros s H; simpl in *; [lia|].
  destruct s as [|d s]; [done|].
  apply andb_true_iff in H as [_ H]. apply IH in H. simpl. lia.
Qed.

(** What occurs within a string is not longer than the string. *)
Lemma Contains_length (s sub : string) :
  Contains s sub = true -> String.length sub <= String.length s.
Proof.
  induction s as [|c s IH]; simpl; intros H.
  - rewrite orb_false_r in H. by apply HasPrefix_length in H.
  - apply orb_true_iff in H as [H|H].
    + by apply HasPrefix_length in H.
    + apply IH in H. lia.
Qed.

(** *** Runes *)

Lemma N_le_lor_l (a b : N) : (a <= N.lor a b)%N.
Proof.
  assert (N.land (N.lor a b) a = a) as E.
  { apply N.bits_inj. intros n. rewrite N.land_spec, N.lor_spec.
    by destruct (N.testbit a n), (N.testbit b n). }
  rewrite <- E at 1. apply N.land_le_l.
Qed.

Lemma N_le_lor_r (a b : N) : (b <= N.lor a b)%N.
Proof. rewrite N.lor_comm. apply N_le_lor_l. Qed.

Lemma leadByte_Some b sz lo hi :
  leadByte b = Some (sz, lo, hi) ->
  (128 <= lo /\ hi <= 191)%N /\
  ((sz = 2%nat /\ (194 <= b <= 223)%N) \/
   (sz = 3%nat /\ (b = 224 /\ lo = 160 \/ 225 <= b <= 239)%N) \/
   (sz = 4%nat /\ (b = 240 /\ lo = 144 \/ 241 <= b <= 244)%N)).
Proof.
  unfold leadByte.
  repeat match goal with
  | |- context [(?x <? ?y)%N] => destruct (N.ltb_spec x y)
  | |- context [(?x <=? ?y)%N] => destruct (N.leb_spec x y)
  | |- context [(?x =? ?y)%N] => destruct (N.eqb_spec x y)
  end; intros [= <- <- <-] || intros [=]; (split; [lia|]);
  first [ left; split; [reflexivity|lia]
        | right; left; split; [reflexivity|lia]
        | right; right; split; [reflexivity|lia] ].
Qed.

Lemma shifted_low_ge (b m k lo q : N) :
  (m = 2 ^ q -> lo <= b mod m -> lo * 2 ^ k <= N.shiftl (N.land b (N.ones q)) k)%N.
Proof.
  intros -> H. rewrite N.land_ones, N.shiftl_mul_pow2.
  apply N.mul_le_mono_r. exact H.
Qed.

Lemma mod_ge (b m q lo : N) :
  (m <> 0 -> q * m + lo <= b < q * m + m -> lo <= b mod m)%N.
Proof.
  intros Hm H.
  rewrite <- (N.mod_unique b m q (b - q * m)); [lia|lia|].
  rewrite (N.mul_comm m q). lia.
Qed.

Lemma DecodeRuneInString_ascii c0 s1 :
  (N_of_ascii c0 < 128)%N ->
  DecodeRuneInString (String c0 s1) = (N_of_ascii c0, 1%nat).
Proof.
  intros H. unfold DecodeRuneInString, RuneSelf.
  by destruct (N.ltb_spec (N_of_ascii c0) 128); [|lia].
Qed.

(** A rune decoded from a string that begins with a byte above 127 is not
    below [RuneSelf]: no such string decodes to an ASCII character. *)
Lemma DecodeRuneInString_wide c0 s1 :
  (128 <= N_of_ascii c0 -> 128 <= fst (DecodeRuneInString (String c0 s1)))%N.
Proof.
  intros H0. unfold DecodeRuneInString, RuneSelf, RuneError.
  destruct (N.ltb_spec (N_of_ascii c0) 128); [lia|].
  destruct (leadByte (N_of_ascii c0)) as [[[sz lo] hi]|] eqn:El; [|simpl; lia].
  apply leadByte_Some in El as [[Hlo Hhi] Hsz].
  destruct s1 as [|c1 s2]; [simpl; lia|].
  destruct (N.ltb_spec (N_of_ascii c1) lo); [simpl; lia|].
  destruct (N.ltb_spec hi (N_of_ascii c1)); [simpl; lia|]. simpl orb. cbv iota.
  set (b0 := N_of_ascii c0) in *. set (b1 := N_of_ascii c1) in *.
  assert (forall x y : N, (128 <= x -> 128 <= N.lor x y))%N as Hl.
  { intros x y Hx. pose proof (N_le_lor_l x y). lia. }
  assert (forall x y : N, (128 <= y -> 128 <= N.lor x y))%N as Hr.
  { intros x y Hy. pose proof (N_le_lor_r x y). lia. }
  destruct Hsz as [[-> Hb]|[[-> Hb]|[-> Hb]]]; simpl Nat.leb; cbv iota.
  - simpl. apply Hl.
    pose proof (shifted_low_ge b0 32 6 2 5 eq_refl) as Hs.
    change (N.ones 5) with 31%N in Hs.
    assert (2 <= b0 mod 32)%N by (apply (mod_ge b0 32 6 2); lia). lia.
  - destruct s2 as [|c2 s3]; [simpl; lia|].
    destruct (isCont (N_of_ascii c2)); [|simpl; lia]. simpl.
    destruct Hb as [[Hb ->]|Hb].
    + apply Hr. apply Hl.
      pose proof (shifted_low_ge b1 64 6 32 6 eq_refl) as Hs.
      change (N.ones 6) with 63%N in Hs.
      assert (32 <= b1 mod 64)%N by (apply (mod_ge b1 64 2 32); lia). lia.
    + apply Hl.
      pose proof (shifted_low_ge b0 16 12 1 4 eq_refl) as Hs.
      change (N.ones 4) with 15%N in Hs.
      assert (1 <= b0 mod 16)%N by (apply (mod_ge b0 16 14 1); lia). lia.
  - destruct s2 as [|c2 s3]; [simpl; lia|].
    destruct (isCont (N_of_ascii c2)); [|simpl; lia]. simpl.
    destruct s3 as [|c3 s4]; [simpl; lia|].
    destruct (isCont (N_of_ascii c3)); [|simpl; lia]. simpl.
    destruct Hb as [[Hb ->]|Hb].
    + apply Hr. apply Hl.
      pose proof (shifted_low_ge b1 64 12 16 6 eq_refl) as Hs.
      change (N.ones 6) with 63%N in Hs.
      assert (16 <= b1 mod 64)%N by (apply (mod_ge b1 64 2 16); lia). lia.
    + apply Hl.
      pose proof (shifted_low_ge b0 8 18 1 3 eq_refl) as Hs.
      change (N.ones 3) with 7%N in Hs.
      assert (1 <= b0 mod 8)%N by (apply (mod_ge b0 8 30 1); lia). lia.
Qed.

(** The bytes that a rune takes after its first one are above 127. *)
Lemma DecodeRuneInString_tail c0 s1 :
  wideBytes (snd (DecodeRuneInString (String c0 s1)) - 1) s1.
Proof.
  unfold DecodeRuneInString, RuneSelf.
  destruct (N.ltb_spec (N_of_ascii c0) 128); [done|].
  destruct (leadByte (N_of_ascii c0)) as [[[sz lo] hi]|] eqn:El; [|done].
  apply leadByte_Some in El as [[Hlo Hhi] Hsz].
  destruct s1 as [|c1 s2]; [done|].
  destruct (N.ltb_spec (N_of_ascii c1) lo); [done|].
  destruct (N.ltb_spec hi (N_of_ascii c1)); [done|]. simpl orb. cbv iota.
  assert (128 <= N_of_ascii c1)%N as Hc1 by lia.
  destruct (sz <=? 2)%nat; [simpl; done|].
  destruct s2 as [|c2 s3]; [done|].
  unfold isCont.
  destruct (N.leb_spec 128 (N_of_ascii c2)); [|done].
  destruct (N.leb_spec (N_of_ascii c2) 191); [|done]. simpl negb. cbv iota.
  destruct (sz <=? 3)%nat; [simpl; done|].
  destruct s3 as [|c3 s4]; [done|].
  destruct (N.leb_spec 128 (N_of_ascii c3)); [|done].
  destruct (N.leb_spec (N_of_ascii c3) 191); [|done]. simpl. done.
Qed.

(** *** Patterns *)

(** A literal below [RuneSelf] matches exactly its own byte. *)
Lemma matchHere_Lit c re s :
  (N_of_ascii c < 128)%N ->
  matchHere (Lit c :: re) s = true <->
  exists rest, s = String c rest /\ matchHere re rest = true.
Proof.
  intros Hc. simpl. destruct s as [|b s'].
  - split; [done|by intros (rest & E & _)].
  - destruct (N.lt_ge_cases (N_of_ascii b) 128) as [Hb|Hb].
    + rewrite DecodeRuneInString_ascii by done. simpl.
      rewrite andb_true_iff, N.eqb_eq. split.
      * intros [E H]. apply (f_equal ascii_of_N) in E.
        rewrite !ascii_N_embedding in E. subst b. by exists s'.
      * intros (rest & [= -> ->] & H). by split.
    + pose proof (DecodeRuneInString_wide b s' Hb) as Hw.
      destruct (DecodeRuneInString (String b s')) as [r width]. simpl in Hw.
      split.
      * intros [E _]%andb_true_iff. apply N.eqb_eq in E. lia.
      * intros (rest & [= -> ->] & _). lia.
Qed.

(** A class of characters below [RuneSelf] matches exactly their bytes. *)
Lemma matchHere_OneOf cs re s :
  Forall (fun c => (N_of_ascii c < 128)%N) cs ->
  matchHere (OneOf cs :: re) s = true <->
  exists d rest, s = String d rest /\ In d cs /\ matchHere re rest = true.
Proof.
  intros Hcs. simpl. destruct s as [|b s'].
  - split; [done|by intros (d & rest & E & _)].
  - destruct (N.lt_ge_cases (N_of_ascii b) 128) as [Hb|Hb].
    + rewrite DecodeRuneInString_ascii by done. simpl.
      rewrite andb_true_iff, existsb_exists. split.
      * intros [(d & Hd & E) H]. apply N.eqb_eq in E.
        apply (f_equal ascii_of_N) in E. rewrite !ascii_N_embedding in E. subst b.
        by exists d, s'.
      * intros (d & rest & [= -> ->] & Hd & H). split; [|done].
        exists d. split; [done|]. apply N.eqb_refl.
    + pose proof (DecodeRuneInString_wide b s' Hb) as Hw.
      destruct (DecodeRuneInString (String b s')) as [r width]. simpl in Hw.
      split.
      * intros [(d & Hd & E)%existsb_exists _]%andb_true_iff.
        apply N.eqb_eq in E. rewrite Forall_forall in Hcs.
        specialize (Hcs d). rewrite <- list_elem_of_In in Hd. specialize (Hcs Hd). lia.
      * intros (d & rest & [= -> ->] & Hd & _). rewrite Forall_forall in Hcs.
        specialize (Hcs d). rewrite <- list_elem_of_In in Hd. specialize (Hcs Hd). lia.
Qed.

Lemma matchHere_lits (p : string) (re : Regexp) (s : string) :
  asciiOnly p ->
  matchHere (lits p ++ re) s = true <->
  exists rest, s = p +:+ rest /\ matchHere re rest = true.
Proof.
  revert s. induction p as [|c p IH]; intros s Hp.
  - simpl. split; [intros H; by exists s|by intros (rest & -> & H)].
  - destruct Hp as [Hc Hp].
    change (lits (String c p) ++ re) with (Lit c :: (lits p ++ re)).
    rewrite matchHere_Lit by done. split.
    + intros (rest & -> & H). apply IH in H as (rest' & -> & H); [|done]. by exists rest'.
    + intros (rest & -> & H). exists (p +:+ rest). split; [done|].
      apply IH; [done|]. by exists rest.
Qed.

Lemma matchFrom_sound re s k :
  matchFrom re s k = true ->
  exists pre rest, s = pre +:+ rest /\ matchHere re rest = true.
Proof.
  revert k. induction s as [|c s IH]; intros k H.
  - destruct k; simpl in H; [|done]. rewrite orb_false_r in H.
    by exists EmptyString, EmptyString.
  - destruct k as [|k]; simpl in H.
    + apply orb_true_iff in H as [H|H].
      * by exists EmptyString, (String c s).
      * apply IH in H as (pre & rest & -> & H). by exists (String c pre), rest.
    + apply IH in H as (pre & rest & -> & H). by exists (String c pre), rest.
Qed.

(** A pattern that begins with a literal below [RuneSelf] is found at any
    offset, although the search advances rune by rune. *)
Lemma matchFrom_complete c re pre rest k :
  (N_of_ascii c < 128)%N ->
  wideBytes k (pre +:+ rest) ->
  matchHere (Lit c :: re) rest = true ->
  matchFrom (Lit c :: re) (pre +:+ rest) k = true.
Proof.
  intros Hc. revert k. induction pre as [|a pre IH]; intros k Hk H.
  - rewrite append_nil in *.
    pose proof H as H'. apply matchHere_Lit in H' as (rest' & -> & _); [|done].
    destruct k as [|k]; [|simpl in Hk; lia].
    unfold matchFrom; fold matchFrom. by rewrite H.
  - rewrite append_cons in *. destruct k as [|k].
    + unfold matchFrom; fold matchFrom. apply orb_true_iff. right.
      apply IH; [|done]. apply DecodeRuneInString_tail.
    + unfold matchFrom; fold matchFrom. apply IH; [|done]. by destruct Hk.
Qed.

Lemma MatchString_Lit c re s :
  (N_of_ascii c < 128)%N ->
  MatchString (Lit c :: re) s = true <->
  exists pre rest, s = pre +:+ rest /\ matchHere (Lit c :: re) rest = true.
Proof.
  intros Hc. unfold MatchString. split.
  - apply matchFrom_sound.
  - intros (pre & rest & -> & H). by apply matchFrom_complete.
Qed.

(** ** The header map *)

Lemma Header_Add_other key key' value h :
  key <> key' -> Header_Add key value h !! key' = h !! key'.
Proof. intros H. unfold Header_Add. by rewrite lookup_insert_ne. Qed.

Lemma Header_Del_other key key' h :
  key <> key' -> Header_Del key h !! key' = h !! key'.
Proof. intros H. unfold Header_Del. by rewrite lookup_delete_ne. Qed.

Lemma lockStep_other entries ua host s h key :
  key <> WwwAuthenticate -> lockStep entries ua host s h !! key = h !! key.
Proof.
  intros H. unfold lockStep. destruct (firstLock entries ua).
  - by rewrite Header_Add_other, Header_Del_other.
  - by rewrite Header_Add_other.
Qed.

Lemma lockLoop_other order ua host strategies n h key :
  key <> WwwAuthenticate ->
  lockLoop order ua host strategies n h !! key = h !! key.
Proof.
  intros H. revert n h. induction strategies as [|s strategies IH]; intros n h; simpl.
  - done.
  - by rewrite IH, lockStep_other.
Qed.

Lemma negotiated_other order r strategies n h key :
  key <> WwwAuthenticate ->
  negotiated order r strategies n h !! key = h !! key.
Proof.
  intros H. unfold negotiated.
  destruct (isPublicPath (URL_Path r)); [done|].
  destruct (lockScope (RequestURI r)); [|done].
  by apply lockLoop_other.
Qed.

Lemma addChallenges_values host strategies h :
  Header_Values WwwAuthenticate (addChallenges host strategies h) =
  Header_Values WwwAuthenticate h ++ map (fun s => challenge s host) strategies.
Proof.
  unfold addChallenges. revert h.
  induction strategies as [|s strategies IH]; intros h; simpl.
  - by rewrite app_nil_r.
  - by rewrite IH, Header_Values_Add, <- app_assoc.
Qed.

Lemma addChallenges_other host strategies h key :
  key <> WwwAuthenticate -> addChallenges host strategies h !! key = h !! key.
Proof.
  intros H. unfold addChallenges. revert h.
  induction strategies as [|s strategies IH]; intros h; simpl; [done|].
  by rewrite IH, Header_Add_other.
Qed.

(** Without a lock entry that applies, the loop of the lock-in stages what
    [writeSupportedAuthenticateHeader] stages. *)
Lemma lockLoop_addChallenges order (locks : gmap string string) ua host strategies n h :
  validOrder order locks -> ~ lockApplies locks ua ->
  lockLoop order ua host strategies n h = addChallenges host strategies h.
Proof.
  intros Hord Hno. unfold addChallenges. revert n h.
  induction strategies as [|s strategies IH]; intros n h; simpl; [done|].
  rewrite IH. unfold lockStep.
  apply (firstLock_order_None order locks n ua Hord) in Hno. by rewrite Hno.
Qed.

Lemma writeSupportedAuthenticateHeader_exec r st :
  exec (writeSupportedAuthenticateHeader r) st =
    outcome (globals st)
      (rw_setHeader (addChallenges (Host r) (SupportedAuthStrategies (globals st))) (w st))
      (calls st) (ranges st).
Proof.
  unfold writeSupportedAuthenticateHeader, exec, bind, getSupportedAuthStrategies.
  simpl. unfold addChallenges.
  generalize (SupportedAuthStrategies (globals st)) as strategies.
  intros strategies. revert st.
  induction strategies as [|s strategies IH]; intros st.
  - by destruct st as [g [h wh s se b] c n].
  - simpl forEach. unfold bind, headerAdd, onWriter. simpl. rewrite IH.
    reflexivity.
Qed.

(** ** One call of [evalRequestURI] *)

Lemma evalRequestURI_in_scope order l re st :
  MatchString re (RequestURI (l_r l)) = true ->
  exec (evalRequestURI order l re) st =
    outcome (globals st)
      (rw_setHeader (lockStep (order (ranges st)) (UserAgent (l_r l)) (Host (l_r l))
                       (fallback l)) (w st))
      (calls st) (S (ranges st)).
Proof.
  intros H. unfold exec, evalRequestURI, lockStep. rewrite H; simpl.
  unfold bind, rangeMap; simpl.
  by destruct (firstLock (order (ranges st)) (UserAgent (l_r l))).
Qed.

Section Declined.
Context {webdavPkg : webdav.Package}.

Lemma unauthorized_calls options order r st :
  calls (exec (unauthorized options order r) st) = calls st.
Proof.
  unfold unauthorized, exec, bind.
  destruct (isPublicPath (URL_Path r)); simpl.
  - destruct (webdav.IsWebdavRequest r); [|done]. by destruct (webdav.Marshal _).
  - destruct (lockScope (RequestURI r)) eqn:Hs.
    + rewrite lockIn_loop_in_scope by done. simpl.
      destruct (webdav.IsWebdavRequest r); [|done]. by destruct (webdav.Marshal _).
    + rewrite lockIn_loop_out_of_scope by done. simpl.
      destruct (webdav.IsWebdavRequest r); [|done]. by destruct (webdav.Marshal _).
Qed.

(** The header map sent with the response to a declined request. *)
Lemma serve_decline_sent auths options next order g rw r :
  handledByIdP r = false -> declineAll auths r -> wroteHeader rw = false ->
  status (w (serve (ServeHTTP auths options) next order g rw r)) = 401 /\
  sent (w (serve (ServeHTTP auths options) next order g rw r)) =
    negotiated order r (SupportedAuthStrategies g) 0 (header rw).
Proof.
  intros Hb Hd Hw. rewrite serve_decline by done. unfold outcome; simpl.
  match goal with |- context [rw_ops ?ops ?rw0] =>
    destruct (rw_ops_wrote ops rw0 eq_refl) as (_ & -> & ->) end.
  done.
Qed.

End Declined.

(** ** Extras *)

(** X1: [writeSupportedAuthenticateHeader] appends one challenge per
    supported strategy, in order, to the [Www-Authenticate] values staged
    before; it leaves every other header, the status, the header sent, the
    body, the package state and the calls as they are. *)
Theorem X1_writeSupportedAuthenticateHeader_appends r st :
  let st' := exec (writeSupportedAuthenticateHeader r) st in
  Header_Values WwwAuthenticate (header (w st')) =
    Header_Values WwwAuthenticate (header (w st)) ++
    map (fun s => challenge s (Host r)) (SupportedAuthStrategies (globals st)) /\
  (forall key, key <> WwwAuthenticate -> header (w st') !! key = header (w st) !! key) /\
  wroteHeader (w st') = wroteHeader (w st) /\ status (w st') = status (w st) /\
  sent (w st') = sent (w st) /\ body (w st') = body (w st) /\
  globals st' = globals st /\ calls st' = calls st.
Proof.
  simpl. rewrite writeSupportedAuthenticateHeader_exec. unfold outcome; simpl.
  split; [apply addChallenges_values|].
  split; [intros key Hk; by apply addChallenges_other|done].
Qed.

(** X2: for a declined request within the scope of the lock-in to which
    no lock entry applies, the header map that the handler sends is the
    one [writeSupportedAuthenticateHeader] would have staged on the
    incoming writer. *)
Theorem X2_declined_in_scope_sends_supported_header
    (webdavPkg : webdav.Package) auths options next order g rw r :
  handledByIdP r = false ->
  isPublicPath (URL_Path r) = false ->
  declineAll auths r ->
  wroteHeader rw = false ->
  lockScope (RequestURI r) = true ->
  validOrder order (CredentialsByUserAgent options) ->
  ~ lockApplies (CredentialsByUserAgent options) (UserAgent r) ->
  sent (w (serve (ServeHTTP auths options) next order g rw r)) =
  header (w (exec (writeSupportedAuthenticateHeader r) (outcome g rw [] 0))).
Proof.
  intros Hb Hp Hd Hw Hs Hord Hno.
  destruct (serve_decline_sent auths options next order g rw r Hb Hd Hw) as [_ ->].
  rewrite writeSupportedAuthenticateHeader_exec. unfold outcome; simpl.
  unfold negotiated. rewrite Hp, Hs.
  by apply (lockLoop_addChallenges order (CredentialsByUserAgent options)).
Qed.

Lemma X2_declined_in_scope_sends_supported_header_witness :
  let r := Sample.request "GET" "/ocs/v2.php/cloud/users" "LegacySyncClient/1.0" in
  let auths := [Sample.decline] in
  let options := Sample.options Sample.legacyLock in
  let order := Sample.always (map_to_list Sample.legacyLock) in
  let g := Sample.bothSchemes in
  (handledByIdP r = false /\ isPublicPath (URL_Path r) = false /\
   declineAll auths r /\ wroteHeader Sample.staged = false /\
   lockScope (RequestURI r) = true /\
   validOrder order (CredentialsByUserAgent options) /\
   ~ lockApplies (CredentialsByUserAgent options) (UserAgent r)) /\
  sent (w (serve (ServeHTTP (webdavPkg := webdav.fromSpec) auths options)
             Sample.next order g Sample.staged r)) =
  header (w (exec (writeSupportedAuthenticateHeader r) (outcome g Sample.staged [] 0))).
Proof.
  intros r auths options order g.
  assert (declineAll auths r) as Hd by repeat constructor.
  assert (validOrder order (CredentialsByUserAgent options)) as Hord.
  { intros n. reflexivity. }
  assert (~ lockApplies (CredentialsByUserAgent options) (UserAgent r)) as Hno.
  { intros (k & v & Hkv & Hc). subst options.
    unfold Sample.options, Sample.legacyLock in Hkv; simpl in Hkv.
    apply lookup_singleton_Some in Hkv as [<- _]. discriminate Hc. }
  split; [repeat split; assumption|].
  exact (X2_declined_in_scope_sends_supported_header webdav.fromSpec auths options
           Sample.next order g Sample.staged r eq_refl eq_refl Hd eq_refl eq_refl Hord Hno).
Defined.

(** X3: the response to a declined request carries every header that was
    staged on the incoming writer under another name than
    [Www-Authenticate], unchanged, and no other one. *)
Theorem X3_declined_keeps_other_headers
    (webdavPkg : webdav.Package) auths options next order g rw r key :
  handledByIdP r = false ->
  declineAll auths r ->
  wroteHeader rw = false ->
  key <> WwwAuthenticate ->
  sent (w (serve (ServeHTTP auths options) next order g rw r)) !! key = header rw !! key.
Proof.
  intros Hb Hd Hw Hk.
  destruct (serve_decline_sent auths options next order g rw r Hb Hd Hw) as [_ ->].
  by apply negotiated_other.
Qed.

Lemma X3_declined_keeps_other_headers_witness :
  let r := Sample.request "GET" "/ocs/v1.php/cloud/user" "LegacySyncClient" in
  let auths := [Sample.decline] in
  let options := Sample.options Sample.legacyLock in
  let order := Sample.always (map_to_list Sample.legacyLock) in
  (handledByIdP r = false /\ declineAll auths r /\ wroteHeader Sample.staged = false /\
   "X-Request-Id" <> WwwAuthenticate) /\
  sent (w (serve (ServeHTTP (webdavPkg := webdav.fromSpec) auths options)
             Sample.next order Sample.bothSchemes Sample.staged r)) !! "X-Request-Id" =
  header Sample.staged !! "X-Request-Id".
Proof.
  intros r auths options order.
  assert (declineAll auths r) as Hd by repeat constructor.
  assert ("X-Request-Id" <> WwwAuthenticate) as Hk by discriminate.
  split; [repeat split; assumption|].
  exact (X3_declined_keeps_other_headers webdav.fromSpec auths options Sample.next order
           Sample.bothSchemes Sample.staged r "X-Request-Id" eq_refl Hd eq_refl Hk).
Defined.

(** X4: every extension of a public path is public: the public paths are
    prefixes, not exact paths and not path segments. *)
Theorem X4_isPublicPath_extends (p q : string) :
  isPublicPath p = true -> isPublicPath (p +:+ q) = true.
Proof.
  unfold isPublicPath. intros H.
  apply existsb_exists in H as (pp & Hin & Hp).
  apply existsb_exists. exists pp. split; [done|]. by apply HasPrefix_extend.
Qed.

Lemma X4_isPublicPath_extends_witness :
  isPublicPath "/data" = true /\ isPublicPath ("/data" +:+ "base/dump.sql") = true.
Proof.
  split; [reflexivity|].
  apply (X4_isPublicPath_extends "/data" "base/dump.sql"). reflexivity.
Defined.

(** X5: the test for the token endpoint adds nothing to the exemptions:
    its path is among those that begin with [/konnect]. *)
Theorem X5_token_endpoint_check_subsumed (r : Request) :
  handledByIdP r =
  (String.eqb (URL_Path r) "/" ||
   HasPrefix (URL_Path r) "/.well-known" ||
   String.eqb (URL_Path r) "/login" ||
   HasPrefix (URL_Path r) "/js" ||
   HasPrefix (URL_Path r) "/themes" ||
   HasPrefix (URL_Path r) "/signin" ||
   HasPrefix (URL_Path r) "/konnect" ||
   String.eqb (URL_Path r) "/config.json" ||
   String.eqb (URL_Path r) "/oidc-callback.html" ||
   String.eqb (URL_Path r) "/oidc-callback" ||
   String.eqb (URL_Path r) "/settings.js").
Proof.
  unfold handledByIdP, isOIDCTokenAuth.
  destruct (String.eqb (URL_Path r) "/konnect/v1/token") eqn:E; [|done].
  apply String.eqb_eq in E. rewrite E. reflexivity.
Qed.

(** X6: the list of supported schemes is shared by all the middlewares
    set up in the process: after a second set-up, a handler returned by
    the first one advertises, for a declined request within scope to which
    no lock entry applies, the schemes of the first set-up followed by
    those of the second. *)
Theorem X6_second_setup_extends_challenges
    (webdavPkg : webdav.Package) auths1 auths2 options1 options2 next order rw r :
  handledByIdP r = false ->
  isPublicPath (URL_Path r) = false ->
  declineAll auths1 r ->
  wroteHeader rw = false ->
  Header_Values WwwAuthenticate (header rw) = [] ->
  lockScope (RequestURI r) = true ->
  validOrder order (CredentialsByUserAgent options1) ->
  ~ lockApplies (CredentialsByUserAgent options1) (UserAgent r) ->
  let setup1 := Authentication auths1 options1 initGlobals in
  let setup2 := Authentication auths2 options2 (fst setup1) in
  SupportedAuthStrategies (fst setup2) =
    configuredSchemes options1 ++ configuredSchemes options2 /\
  challenges (serve (snd setup1) next order (fst setup2) rw r) =
    map (fun s => challenge s (Host r))
      (configuredSchemes options1 ++ configuredSchemes options2).
Proof.
  intros Hb Hp Hd Hw Hh Hs Hord Hno. simpl.
  change (fun (next : Handler) (order : MapOrder) (r : Request) =>
            ServeHTTP auths1 options1 next order r)
    with (ServeHTTP auths1 options1).
  unfold challenges.
  match goal with |- context [serve _ next order ?g rw r] =>
    destruct (serve_decline_sent auths1 options1 next order g rw r Hb Hd Hw) as [_ ->] end.
  rewrite !configureSupportedChallenges_appends. simpl. split; [done|].
  unfold negotiated. rewrite Hp, Hs.
  by rewrite (lockLoop_fallback order (CredentialsByUserAgent options1)), Hh.
Qed.

Lemma X6_second_setup_extends_challenges_witness :
  let r := Sample.request "GET" "/ocs/v1.php/cloud/user" "curl/8.0" in
  let auths := [Sample.decline] in
  let options := Sample.options ∅ in
  let order := Sample.always [] in
  let setup1 := Authentication (webdavPkg := webdav.fromSpec) auths options initGlobals in
  let setup2 := Authentication (webdavPkg := webdav.fromSpec) auths options (fst setup1) in
  (handledByIdP r = false /\ isPublicPath (URL_Path r) = false /\
   declineAll auths r /\ wroteHeader newResponseWriter = false /\
   Header_Values WwwAuthenticate (header newResponseWriter) = [] /\
   lockScope (RequestURI r) = true /\
   validOrder order (CredentialsByUserAgent options) /\
   ~ lockApplies (CredentialsByUserAgent options) (UserAgent r)) /\
  SupportedAuthStrategies (fst setup2) = ["bearer"; "basic"; "bearer"; "basic"] /\
  challenges (serve (snd setup1) Sample.next order (fst setup2) newResponseWriter r) =
    map (fun s => challenge s (Host r)) ["bearer"; "basic"; "bearer"; "basic"].
Proof.
  intros r auths options order setup1 setup2.
  assert (declineAll auths r) as Hd by repeat constructor.
  assert (validOrder order (CredentialsByUserAgent options)) as Hord.
  { intros n. reflexivity. }
  assert (~ lockApplies (CredentialsByUserAgent options) (UserAgent r)) as Hno.
  { intros (k & v & Hkv & _). subst options. simpl in Hkv.
    rewrite lookup_empty in Hkv. discriminate. }
  split; [repeat split; assumption|].
  exact (X6_second_setup_extends_challenges webdav.fromSpec auths auths options options
           Sample.next order newResponseWriter r eq_refl eq_refl Hd eq_refl eq_refl
           eq_refl Hord Hno).
Defined.

(** X7: a request that is not left to the IdP and that every authenticator
    declines never reaches the next handler: the calls made for it are
    one call to each authenticator of the chain, in configured order, and
    nothing else, whatever the state of the writer. *)
Theorem X7_declined_never_reaches_next
    (webdavPkg : webdav.Package) auths options next order g rw r :
  handledByIdP r = false ->
  declineAll auths r ->
  let st := serve (ServeHTTP auths options) next order g rw r in
  calls st = authCalls 0 (length auths) r /\
  (forall req, CallServeHTTP req ∉ calls st).
Proof.
  intros Hb Hd st.
  assert (calls st = authCalls 0 (length auths) r) as Hc.
  { subst st. unfold serve, ServeHTTP. rewrite Hb. unfold exec, bind.
    rewrite rangeAuths_decline by done.
    pose proof (unauthorized_calls options order r
                  (outcome g rw ([] ++ authCalls 0 (length auths) r) 0)) as H.
    unfold exec in H. simpl in *. by rewrite H. }
  split; [done|]. rewrite Hc. intros req Hin. unfold authCalls in Hin.
  apply list_elem_of_fmap in Hin as (j & Hj & _). discriminate.
Qed.

Lemma X7_declined_never_reaches_next_witness :
  let r := Sample.request "GET" "/remote.php/webdav/doc.txt" "curl/8.0" in
  let auths := [Sample.decline; Sample.basicAuth] in
  let st := serve (ServeHTTP (webdavPkg := webdav.fromSpec) auths (Sample.options ∅))
              Sample.next (Sample.always []) Sample.bothSchemes newResponseWriter r in
  (handledByIdP r = false /\ declineAll auths r) /\
  calls st = authCalls 0 (length auths) r /\
  (forall req, CallServeHTTP req ∉ calls st).
Proof.
  intros r auths st.
  assert (declineAll auths r) as Hd by repeat constructor.
  split; [by split|].
  exact (X7_declined_never_reaches_next webdav.fromSpec auths (Sample.options ∅)
           Sample.next (Sample.always []) Sample.bothSchemes newResponseWriter r
           eq_refl Hd).
Defined.

(** X8: one call of [evalRequestURI] on a URI that its pattern matches:
    when a lock entry applies, whatever was staged under
    [Www-Authenticate] is replaced by the one challenge of an entry that
    applies; when none applies, the challenge of the fallback is appended
    to what was staged. *)
Theorem X8_lock_replaces_fallback_appends order l re st :
  validOrder order (locks l) ->
  MatchString re (RequestURI (l_r l)) = true ->
  let st' := exec (evalRequestURI order l re) st in
  let ua := UserAgent (l_r l) in
  (lockApplies (locks l) ua ->
     exists k v, locks l !! k = Some v /\ Contains k ua = true /\
       Header_Values WwwAuthenticate (header (w st')) = [challenge v (Host (l_r l))]) /\
  (~ lockApplies (locks l) ua ->
     Header_Values WwwAuthenticate (header (w st')) =
       Header_Values WwwAuthenticate (header (w st)) ++
       [challenge (fallback l) (Host (l_r l))]).
Proof.
  intros Hord Hm st' ua. subst st' ua.
  rewrite evalRequestURI_in_scope by done. unfold outcome; simpl. unfold lockStep.
  split.
  - intros Hyes.
    destruct (firstLock (order (ranges st)) (UserAgent (l_r l))) as [v|] eqn:E.
    + destruct (firstLock_order_Some _ _ _ _ _ Hord E) as (k & Hk & Hc).
      exists k, v. repeat split; [done..|].
      by rewrite Header_Values_Add, Header_Values_Del.
    + by apply (firstLock_order_None order (locks l) _ _ Hord) in E.
  - intros Hno.
    apply (firstLock_order_None order (locks l) (ranges st) _ Hord) in Hno.
    rewrite Hno. apply Header_Values_Add.
Qed.

Lemma X8_lock_replaces_fallback_appends_witness :
  let l := {| l_r := Sample.request "GET" "/ocs/v1.php/cloud/user" "LegacySyncClient";
              locks := Sample.legacyLock; fallback := "bearer" |} in
  let order := Sample.always (map_to_list Sample.legacyLock) in
  let st := outcome initGlobals Sample.staged [] 0 in
  let st' := exec (evalRequestURI order l ocsCloud) st in
  (validOrder order (locks l) /\ MatchString ocsCloud (RequestURI (l_r l)) = true) /\
  exists k v, locks l !! k = Some v /\ Contains k (UserAgent (l_r l)) = true /\
    Header_Values WwwAuthenticate (header (w st')) = [challenge v (Host (l_r l))].
Proof.
  intros l order st st'.
  assert (validOrder order (locks l)) as Hord.
  { intros n. reflexivity. }
  split; [by split|].
  apply (X8_lock_replaces_fallback_appends order l ocsCloud st Hord eq_refl).
  exists "LegacySyncClient", "basic". split; reflexivity.
Defined.

Lemma matchHere_ocsCloud (rest : string) :
  matchHere ocsCloud rest = true <->
  exists d tail,
    rest = "/ocs/v" +:+ String d tail /\
    (d = "1"%char \/ d = "2"%char) /\
    tail <> EmptyString /\
    fst (DecodeRuneInString tail) <> 10%N /\
    HasPrefix (dropBytes (snd (DecodeRuneInString tail)) tail) "php/cloud/" = true.
Proof.
  unfold ocsCloud. rewrite matchHere_lits by (simpl; repeat split; done).
  remember (lits "php/cloud/") as final eqn:Et.
  assert (forall s, matchHere final s = true <-> HasPrefix s "php/cloud/" = true) as Ht.
  { intros s. subst final. rewrite <- (app_nil_r (lits "php/cloud/")).
    rewrite matchHere_lits by (simpl; repeat split; done). split.
    - intros (post & -> & _). apply HasPrefix_append.
    - intros (post & ->)%HasPrefix_inv. by exists post. }
  change ([OneOf ["1"%char; "2"%char]; AnyCharNotNL] ++ final)
    with (OneOf ["1"%char; "2"%char] :: AnyCharNotNL :: final).
  assert (Forall (fun c => (N_of_ascii c < 128)%N) ["1"%char; "2"%char]) as Hcs.
  { repeat constructor. }
  split.
  - intros (s1 & -> & H).
    apply (matchHere_OneOf _ _ _ Hcs) in H as (d & tail & -> & Hd & H).
    exists d, tail. split; [done|]. split.
    { simpl in Hd. destruct Hd as [<-|[<-|[]]]; auto. }
    destruct tail as [|c t]; [done|]. split; [done|].
    unfold matchHere in H; fold matchHere in H.
    destruct (DecodeRuneInString (String c t)) as [r width].
    apply andb_true_iff in H as [Hr H]. simpl. split.
    + simpl in Hr. apply negb_true_iff in Hr. by apply N.eqb_neq in Hr.
    + by apply Ht.
  - intros (d & tail & -> & Hd & Hne & Hr & Hp).
    exists (String d tail). split; [done|].
    apply (matchHere_OneOf _ _ _ Hcs). exists d, tail. split; [done|]. split.
    { simpl. destruct Hd as [->| ->]; auto. }
    destruct tail as [|c t]; [done|].
    unfold matchHere; fold matchHere.
    destruct (DecodeRuneInString (String c t)) as [r width]. simpl in Hr, Hp.
    apply andb_true_iff. split.
    + simpl. apply negb_true_iff. by apply N.eqb_neq.
    + by apply Ht.
Qed.

(** X9: a request URI is within the scope of the lock-in exactly when it
    contains, at any place, [/ocs/v], then [1] or [2], then one rune that
    is not a line feed (one code point, of one to four bytes, or one byte
    of an invalid encoding), then [php/cloud/]. *)
Theorem X9_lockScope_characterised (uri : string) :
  lockScope uri = true <->
  exists pre d tail,
    uri = pre +:+ "/ocs/v" +:+ String d tail /\
    (d = "1"%char \/ d = "2"%char) /\
    tail <> EmptyString /\
    fst (DecodeRuneInString tail) <> 10%N /\
    HasPrefix (dropBytes (snd (DecodeRuneInString tail)) tail) "php/cloud/" = true.
Proof.
  rewrite lockScope_ocsCloud.
  assert (ocsCloud = Lit "/"%char :: tl ocsCloud) as E by reflexivity.
  rewrite E, MatchString_Lit by (vm_compute; done). rewrite <- E. split.
  - intros (pre & rest & -> & H). apply matchHere_ocsCloud in H as (d & tail & -> & H).
    by exists pre, d, tail.
  - intros (pre & d & tail & -> & H).
    exists pre, ("/ocs/v" +:+ String d tail).
    split; [done|]. apply matchHere_ocsCloud. by exists d, tail.
Qed.

(** X10: when the user agent is itself a key of the lock mapping and
    occurs within no other key, one call of [evalRequestURI] on a URI that
    its pattern matches leaves exactly the challenge of the scheme mapped
    to that key, whatever the order of the loop. *)
Theorem X10_exact_user_agent_locked order l re st v :
  validOrder order (locks l) ->
  MatchString re (RequestURI (l_r l)) = true ->
  locks l !! UserAgent (l_r l) = Some v ->
  (forall k, k <> UserAgent (l_r l) -> is_Some (locks l !! k) ->
             Contains k (UserAgent (l_r l)) = false) ->
  Header_Values WwwAuthenticate (header (w (exec (evalRequestURI order l re) st))) =
    [challenge v (Host (l_r l))].
Proof.
  intros Hord Hm Hv Hother.
  rewrite evalRequestURI_in_scope by done. unfold outcome; simpl. unfold lockStep.
  destruct (firstLock (order (ranges st)) (UserAgent (l_r l))) as [v'|] eqn:E.
  - destruct (firstLock_order_Some _ _ _ _ _ Hord E) as (k & Hk & Hc).
    destruct (decide (k = UserAgent (l_r l))) as [->|Hne].
    + rewrite Hv in Hk. injection Hk as <-.
      by rewrite Header_Values_Add, Header_Values_Del.
    + rewrite Hother in Hc; [done|done|by eexists].
  - apply (firstLock_order_None order (locks l) _ _ Hord) in E.
    destruct E. exists (UserAgent (l_r l)), v. split; [done|apply Contains_refl].
Qed.

Lemma X10_exact_user_agent_locked_witness :
  let l := {| l_r := Sample.request "GET" "/ocs/v1.php/cloud/user" "mirall/3";
              locks := Sample.versionLocks; fallback := "basic" |} in
  let order := Sample.always (map_to_list Sample.versionLocks) in
  let st := outcome initGlobals Sample.staged [] 0 in
  (validOrder order (locks l) /\ MatchString ocsCloud (RequestURI (l_r l)) = true /\
   locks l !! UserAgent (l_r l) = Some "bearer" /\
   (forall k, k <> UserAgent (l_r l) -> is_Some (locks l !! k) ->
              Contains k (UserAgent (l_r l)) = false)) /\
  Header_Values WwwAuthenticate (header (w (exec (evalRequestURI order l ocsCloud) st))) =
    [challenge "bearer" (Host (l_r l))].
Proof.
  intros l order st.
  assert (validOrder order (locks l)) as Hord.
  { intros n. reflexivity. }
  assert (forall k, k <> UserAgent (l_r l) -> is_Some (locks l !! k) ->
                    Contains k (UserAgent (l_r l)) = false) as Hother.
  { intros k Hne [x Hx]. subst l. simpl in *. unfold Sample.versionLocks in Hx.
    apply lookup_insert_Some in Hx as [[<- _]|[_ Hx]]; [reflexivity|].
    apply lookup_singleton_Some in Hx as [<- _]. by destruct Hne. }
  split; [repeat split; assumption|].
  exact (X10_exact_user_agent_locked order l ocsCloud st "bearer" Hord eq_refl eq_refl Hother).
Defined.

(** X11: a user agent that is longer than every key of the lock mapping
    is never locked: one call of [evalRequestURI] on a URI that its
    pattern matches adds the challenge of the fallback and removes
    nothing. *)
Theorem X11_long_user_agent_never_locked order l re st :
  validOrder order (locks l) ->
  MatchString re (RequestURI (l_r l)) = true ->
  (forall k, is_Some (locks l !! k) ->
             String.length k < String.length (UserAgent (l_r l))) ->
  header (w (exec (evalRequestURI order l re) st)) =
    Header_Add WwwAuthenticate (challenge (fallback l) (Host (l_r l))) (header (w st)).
Proof.
  intros Hord Hm Hlen.
  rewrite evalRequestURI_in_scope by done. unfold outcome; simpl. unfold lockStep.
  assert (~ lockApplies (locks l) (UserAgent (l_r l))) as Hno.
  { intros (k & v & Hk & Hc). apply Contains_length in Hc.
    specialize (Hlen k (ex_intro _ v Hk)). lia. }
  apply (firstLock_order_None order (locks l) (ranges st) _ Hord) in Hno.
  by rewrite Hno.
Qed.

Lemma X11_long_user_agent_never_locked_witness :
  let l := {| l_r := Sample.request "GET" "/ocs/v1.php/cloud/user" "LegacySyncClient/1.0";
              locks := Sample.legacyLock; fallback := "bearer" |} in
  let order := Sample.always (map_to_list Sample.legacyLock) in
  let st := outcome initGlobals Sample.staged [] 0 in
  (validOrder order (locks l) /\ MatchString ocsCloud (RequestURI (l_r l)) = true /\
   (forall k, is_Some (locks l !! k) ->
              String.length k < String.length (UserAgent (l_r l)))) /\
  header (w (exec (evalRequestURI order l ocsCloud) st)) =
    Header_Add WwwAuthenticate (challenge "bearer" (Host (l_r l))) (header (w st)).
Proof.
  intros l order st.
  assert (validOrder order (locks l)) as Hord.
  { intros n. reflexivity. }
  assert (forall k, is_Some (locks l !! k) ->
                    String.length k < String.length (UserAgent (l_r l))) as Hlen.
  { intros k [x Hx]. subst l. simpl in *. unfold Sample.legacyLock in Hx.
    apply lookup_singleton_Some in Hx as [<- _]. vm_compute. lia. }
  split; [repeat split; assumption|].
  exact (X11_long_user_agent_never_locked order l ocsCloud st Hord eq_refl Hlen).
Defined.

(** X12: the handler of [AuthenticationOld] serves a request through the
    OIDC middleware exactly once when an OIDC issuer is configured,
    whether Basic auth is enabled or not; without an issuer it leaves the
    writer untouched and never reaches the next handler.  Its set-up
    appends to the supported schemes as the one of [Authentication]
    does. *)
Theorem X12_AuthenticationOld_serves_oidc_once
    (newOIDCAuth : Options -> Handler -> Handler) options g next r rw :
  let setup := AuthenticationOld newOIDCAuth options g in
  snd setup next r rw =
    (if String.eqb (OIDCIss options) EmptyString then rw
     else newOIDCAuth options next r rw) /\
  SupportedAuthStrategies (fst setup) =
    SupportedAuthStrategies g ++ configuredSchemes options.
Proof.
  simpl. split; [|apply configureSupportedChallenges_appends].
  by destruct (String.eqb (OIDCIss options) EmptyString), (EnableBasicAuth options).
Qed.

(** X13: no request is both left to the IdP and on a public path, so the
    order of the two tests in the handler is immaterial. *)
Theorem X13_idp_paths_are_not_public (r : Request) :
  handledByIdP r = true -> isPublicPath (URL_Path r) = false.
Proof.
  intros Hb. destruct (isPublicPath (URL_Path r)) eqn:Hp; [|done].
  apply public_not_handledByIdP in Hp. congruence.
Qed.

Lemma X13_idp_paths_are_not_public_witness :
  let r := Sample.request "GET" "/konnect/v1/userinfo" "curl/8.0" in
  handledByIdP r = true /\ isPublicPath (URL_Path r) = false.
Proof.
  intros r. split; [reflexivity|].
  apply (X13_idp_paths_are_not_public r). reflexivity.
Defined.

(** X14: with an empty chain, every request that is not left to the IdP
    is answered with status 401 without a single call to a collaborator. *)
Theorem X14_empty_chain_rejects
    (webdavPkg : webdav.Package) options next order g rw r :
  handledByIdP r = false ->
  wroteHeader rw = false ->
  let st := serve (ServeHTTP [] options) next order g rw r in
  status (w st) = 401 /\ calls st = [].
Proof.
  intros Hb Hw st. subst st.
  assert (declineAll [] r) as Hd by constructor.
  destruct (serve_decline_sent [] options next order g rw r Hb Hd Hw) as [Hs _].
  split; [done|]. by rewrite serve_decline.
Qed.

Lemma X14_empty_chain_rejects_witness :
  let r := Sample.withBasicCredentials
             (Sample.request "GET" "/remote.php/webdav/doc.txt" "curl/8.0") in
  let st := serve (ServeHTTP (webdavPkg := webdav.fromSpec) [] (Sample.options ∅))
              Sample.next (Sample.always []) Sample.bothSchemes newResponseWriter r in
  (handledByIdP r = false /\ wroteHeader newResponseWriter = false) /\
  status (w st) = 401 /\ calls st = [].
Proof.
  intros r st. split; [by split|].
  exact (X14_empty_chain_rejects webdav.fromSpec (Sample.options ∅) Sample.next
           (Sample.always []) Sample.bothSchemes newResponseWriter r eq_refl eq_refl).
Defined.
